(** * lume_model.torch.module: the LUMEModule adapter

    A shallow embedding of [src/lume_model/torch/module.py].  The adapter
    turns a tensor laid out as [[b, n, m]] into a dictionary of named
    tensors, calls the wrapped model and turns the dictionary of named
    outputs back into one tensor.

    Tensors are modelled the way torch stores a contiguous tensor: a
    shape and the row-major list of the elements.  The element type is
    left abstract, since the adapter never computes with the elements. *)

From Stdlib Require Import Ascii.
From stdpp Require Import gmap strings list fin_maps pretty.

Set Default Proof Using "Type".
Set Warnings "-clear-no-such-hyp".

(** ** Results of calls that may raise *)

Inductive result (E X : Type) : Type :=
  | Ok (x : X)
  | Err (e : E).
Arguments Ok {E X} x.
Arguments Err {E X} e.

Global Instance result_ret {E} : MRet (result E) := λ X x, Ok x.
Global Instance result_bind {E} : MBind (result E) := λ X Y f r,
  match r with
  | Ok x => f x
  | Err e => Err e
  end.

Global Instance result_fmap {E} : FMap (result E) := λ X Y f r,
  match r with
  | Ok x => Ok (f x)
  | Err e => Err e
  end.

(** The two ways [torch.stack] rejects its argument. *)
Inductive stack_failure : Type :=
  | EmptyTensorList
  | UnequalSizes.

(** The exceptions that can leave the constructor and [forward].
    [Raised e] is an exception [e] of the wrapped model, which passes
    through the adapter unchanged; the other constructors are named after
    the Python exception raised by the adapter itself or by the tensor,
    dictionary, attribute and module operations it calls.  [KeyError]
    carries the missing key of a dictionary lookup, or the message of
    [register_module]. *)
Inductive exn (MExn : Type) : Type :=
  | ValueError (msg : string)
  | IndexError
  | KeyError (key : string)
  | RuntimeError (why : stack_failure)
  | TypeError (msg : string)
  | AttributeError (name : string)
  | Raised (e : MExn).
Arguments ValueError {MExn} msg.
Arguments IndexError {MExn}.
Arguments KeyError {MExn} key.
Arguments RuntimeError {MExn} why.
Arguments TypeError {MExn} msg.
Arguments AttributeError {MExn} name.
Arguments Raised {MExn} e.

(** ** Tensors *)

Record tensor (A : Type) : Type := Tensor {
  shape : list nat;
  data : list A
}.
Arguments Tensor {A} shape data.
Arguments shape {A} t.
Arguments data {A} t.

(** Number of elements of a tensor of the given shape. *)
Definition numel (s : list nat) : nat := foldr Nat.mul 1 s.

(** A tensor holds exactly as many elements as its shape says. *)
Definition tensor_wf {A} (t : tensor A) : Prop :=
  length (data t) = numel (shape t).

(** [x.dim()] *)
Definition dim {A} (x : tensor A) : nat := length (shape x).

(** Splits a shape into its leading dimensions and its last one. *)
Fixpoint split_last (s : list nat) : option (list nat * nat) :=
  match s with
  | [] => None
  | [m] => Some ([], m)
  | d :: s' => prod_map (cons d) id <$> split_last s'
  end.

(** Elements at index [idx] of each of the [n] consecutive rows of
    length [m] of [l]. *)
Fixpoint select_last {A} (n m idx : nat) (l : list A) : list A :=
  match n with
  | 0 => []
  | S n' => take 1 (drop idx (take m l)) ++ select_last n' m idx (drop m l)
  end.

(** [x[..., idx]] for a non-negative [idx]: raises IndexError on a tensor
    of rank 0 and on an index outside the last dimension. *)
Definition getitem_last {A MExn} (x : tensor A) (idx : nat)
    : result (exn MExn) (tensor A) :=
  match split_last (shape x) with
  | None => Err IndexError
  | Some (lead, m) =>
      if decide (idx < m)
      then Ok (Tensor lead (select_last (numel lead) m idx (data x)))
      else Err IndexError
  end.

(** [x.unsqueeze(-1)] *)
Definition unsqueeze_last {A} (x : tensor A) : tensor A :=
  Tensor (shape x ++ [1]) (data x).

(** [x.squeeze()]: every dimension of size 1 is removed. *)
Definition squeeze {A} (x : tensor A) : tensor A :=
  Tensor (filter (λ d, d ≠ 1) (shape x)) (data x).

(** Row-major elements of the stack along a new last axis of [n]-element
    tensors whose elements are [cols]: position by position, one element
    of each tensor in turn. *)
Fixpoint interleave {A} (n : nat) (cols : list (list A)) : list A :=
  match n with
  | 0 => []
  | S n' => concat (take 1 <$> cols) ++ interleave n' (drop 1 <$> cols)
  end.

(** [torch.stack(ts, dim=-1)]: raises RuntimeError on an empty list and
    on tensors of different shapes.  The tensors of this development
    share one element type, that is one dtype, and the stack of tensors
    of one dtype holds their elements as they are; the promotion torch
    applies when the stacked tensors differ in dtype is outside the
    embedding. *)
Definition torch_stack_last {A MExn} (ts : list (tensor A))
    : result (exn MExn) (tensor A) :=
  match ts with
  | [] => Err (RuntimeError EmptyTensorList)
  | t0 :: rest =>
      if decide (Forall (λ t, shape t = shape t0) rest)
      then Ok (Tensor (shape t0 ++ [length ts])
                      (interleave (numel (shape t0)) (data <$> ts)))
      else Err (RuntimeError UnequalSizes)
  end.

(** ** Text of the ValueError *)

(** [repr] of a tuple of integers, as the f-string prints
    [tuple(x.shape)]. *)
Definition tuple_repr (s : list nat) : string :=
  match s with
  | [] => "()"
  | [d] => "(" +:+ pretty d +:+ ",)"
  | d :: s' => "(" +:+ pretty d +:+ foldr (λ k r, ", " +:+ pretty k +:+ r) ")" s'
  end.

Definition newline : string := String (ascii_of_nat 10) "".

Definition expected_shape_text : string := "[n_samples, n_features]".

Definition invalid_input_message (s : list nat) : string :=
  "Expected input dim to be at least 2 (" +:+ expected_shape_text +:+ "), "
  +:+ newline +:+ "                received: " +:+ tuple_repr s.

(** ** Dictionaries *)

(** [d[key]] on a Python dict: KeyError when the key is absent. *)
Definition dict_getitem {V MExn} (d : gmap string V) (key : string)
    : result (exn MExn) V :=
  match d !! key with
  | Some v => Ok v
  | None => Err (KeyError key)
  end.

(** [c in name] *)
Fixpoint string_contains (c : ascii) (name : string) : bool :=
  match name with
  | EmptyString => false
  | String c' rest => if decide (c = c') then true else string_contains c rest
  end.

(** ** Python objects and defaults *)

(** What the constructor can find under the attribute [model] of its
    argument: a torch module, [None], or an object of another type, of
    which [register_module] reports the type name. *)
Inductive pyobject (Net : Type) : Type :=
  | IsModule (net : Net)
  | IsNone
  | OtherObject (typename : string).
Arguments IsModule {Net} net.
Arguments IsNone {Net}.
Arguments OtherObject {Net} typename.

(** The default values of the parameters [feature_order] and
    [output_order].  Each is one list object, made when the function is
    defined and shared by all calls: an instance constructed without an
    ordering refers to that object, so what it holds is the content of
    the object at the time, which is empty until somebody appends to the
    list through such an instance. *)
Record defaults : Type := {
  default_feature_order : list string;
  default_output_order : list string
}.

(** The defaults as the definition of [__init__] makes them. *)
Definition initial_defaults : defaults :=
  {| default_feature_order := []; default_output_order := [] |}.

(** The attributes the body of [__init__] sets on the instance before it
    registers the submodule. *)
Definition instance_attributes : list string :=
  ["_model"; "_feature_order"; "_output_order"].

(** The names the body of the class defines. *)
Definition class_attributes : list string :=
  ["__init__"; "feature_order"; "output_order"; "evaluate_model";
   "manipulate_outcome"; "forward"; "_tensor_to_dictionary";
   "_dictionary_to_tensor"; "_validate_input"].

Definition dquote : string := String (ascii_of_nat 34) "".

(** ** The adapter *)

Section LUMEModule.
Context {A Net MState MExn : Type}.

(** The names of the attributes an instance inherits from
    [torch.nn.Module].  torch is not part of the repository: the list is
    a parameter of the constructor, of which the properties say what they
    need. *)
Context (module_attributes : list string).

(** Modelled from the spec: the class [PyTorchModel] is imported from
    [lume_model.torch] and is not part of this file.  The adapter uses
    two attributes of the object it is given: [model], which the
    constructor registers as a submodule, and [evaluate], which maps a
    dictionary of named tensors to a dictionary of named tensors.  The
    object need not have an attribute [model] (then the field is [None]),
    and the attribute need not be a torch module.  [evaluate] is opaque
    to the adapter: it may raise, and it may change the internal state
    [MState] of the model object.  The object is not itself a torch
    module, so assigning it to [self._model] registers nothing. *)
Record PyTorchModel : Type := {
  model : option (pyobject Net);
  evaluate : MState → gmap string (tensor A)
             → result MExn (gmap string (tensor A)) * MState
}.

(** The attributes of a [LUMEModule] instance.  [_modules] is the table
    of registered submodules every [torch.nn.Module] carries; a name can
    be registered with [None] for a module. *)
Record LUMEModule : Type := {
  _modules : gmap string (option Net);
  _model : PyTorchModel;
  _feature_order : list string;
  _output_order : list string
}.

(** [obj.model]: AttributeError when the object has no such attribute. *)
Definition getattr_model (obj : PyTorchModel)
    : result (exn MExn) (pyobject Net) :=
  match model obj with
  | Some v => Ok v
  | None => Err (AttributeError "model")
  end.

(** [hasattr(self, name)] *)
Definition hasattr (s : LUMEModule) (name : string) : Prop :=
  name ∈ instance_attributes ++ class_attributes ++ module_attributes
  ∨ name ∈ dom (_modules s).

(** [torch.nn.Module.register_module], that is [add_module], with its
    checks in their order: the module is a torch module or [None]; the
    name is not that of an attribute other than a registered submodule,
    has no dot and is not empty.  A module already registered under the
    name is replaced.  (The check that the name is a string is decided
    by the type of [name].) *)
Definition register_module (name : string) (module : pyobject Net)
    (s : LUMEModule) : result (exn MExn) LUMEModule :=
  match module with
  | OtherObject typename =>
      Err (TypeError (typename +:+ " is not a Module subclass"))
  | _ =>
      if decide (hasattr s name ∧ name ∉ dom (_modules s))
      then Err (KeyError ("attribute '" +:+ name +:+ "' already exists"))
      else if string_contains "."%char name
      then Err (KeyError ("module name can't contain " +:+ dquote +:+ "."
                          +:+ dquote +:+ ", got: " +:+ name))
      else if decide (name = "")
      then Err (KeyError ("module name can't be empty string "
                          +:+ dquote +:+ dquote))
      else Ok {| _modules :=
                   <[name := match module with
                             | IsModule net => Some net
                             | _ => None
                             end]> (_modules s);
                 _model := _model s;
                 _feature_order := _feature_order s;
                 _output_order := _output_order s |}
  end.

(** [LUMEModule(model, feature_order, output_order)], called when the
    shared default lists hold [dflt]; an ordering that is not passed is
    the default list.  The argument of [register_module] is evaluated
    before the call. *)
Definition __init__ (dflt : defaults) (model0 : PyTorchModel)
    (feature_order output_order : option (list string))
    : result (exn MExn) LUMEModule :=
  let s := {| _modules := ∅;
              _model := model0;
              _feature_order := default (default_feature_order dflt) feature_order;
              _output_order := default (default_output_order dflt) output_order |} in
  module ← getattr_model (_model s);
  register_module "base_model" module s.

(** The table of submodules of an instance whose only submodule is
    [module], registered as [base_model]. *)
Definition registered (module : pyobject Net) : gmap string (option Net) :=
  {["base_model" := match module with
                    | IsModule net => Some net
                    | _ => None
                    end]}.

(** The properties [feature_order] and [output_order]. *)
Definition feature_order (s : LUMEModule) : list string := _feature_order s.
Definition output_order (s : LUMEModule) : list string := _output_order s.

(** *** Calls on an instance

    A method runs against the adapter object [self] and the internal
    state of the wrapped model object, which [self._model] refers to.
    It returns a value or raises, and leaves both behind. *)
Record world : Type := World {
  self : LUMEModule;
  model_state : MState
}.

Definition M (X : Type) : Type := world → result (exn MExn) X * world.

Global Instance M_ret : MRet M := λ X x w, (Ok x, w).
Global Instance M_bind : MBind M := λ X Y f c w,
  match c w with
  | (Ok x, w') => f x w'
  | (Err e, w') => (Err e, w')
  end.

Definition raise {X} (e : exn MExn) : M X := λ w, (Err e, w).
Definition lift {X} (r : result (exn MExn) X) : M X := λ w, (r, w).
Definition get_self : M LUMEModule := λ w, (Ok (self w), w).

(** [m.evaluate(x)] on the wrapped model object. *)
Definition call_evaluate (m : PyTorchModel) (x : gmap string (tensor A))
    : M (gmap string (tensor A)) := λ w,
  let (r, st) := evaluate m (model_state w) x in
  (match r with Ok y => Ok y | Err e => Err (Raised e) end,
   World (self w) st).

Definition evaluate_model (x : gmap string (tensor A))
    : M (gmap string (tensor A)) :=
  s ← get_self;
  call_evaluate (_model s) x.

Definition manipulate_outcome (y_model : gmap string (tensor A))
    : M (gmap string (tensor A)) :=
  mret y_model.

Definition _validate_input (x : tensor A) : M (tensor A) :=
  if decide (dim x ≤ 1)
  then raise (ValueError (invalid_input_message (shape x)))
  else mret x.

(** The loop of [_tensor_to_dictionary] over
    [enumerate(self._feature_order)], from position [idx] on. *)
Fixpoint tensor_to_dictionary_loop (x : tensor A) (idx : nat)
    (features : list string) (input_dict : gmap string (tensor A))
    : result (exn MExn) (gmap string (tensor A)) :=
  match features with
  | [] => Ok input_dict
  | feature :: rest =>
      xi ← getitem_last x idx;
      tensor_to_dictionary_loop x (S idx) rest
        (<[feature := unsqueeze_last xi]> input_dict)
  end.

Definition _tensor_to_dictionary (x : tensor A)
    : M (gmap string (tensor A)) :=
  s ← get_self;
  lift (tensor_to_dictionary_loop x 0 (_feature_order s) ∅).

Definition _dictionary_to_tensor (y_model : gmap string (tensor A))
    : M (tensor A) :=
  s ← get_self;
  ts ← lift (mapM (λ outcome, unsqueeze_last <$> dict_getitem y_model outcome)
                  (_output_order s));
  output_tensor ← lift (torch_stack_last ts);
  mret (squeeze output_tensor).

Definition forward (x : tensor A) : M (tensor A) :=
  x ← _validate_input x;
  model_input ← _tensor_to_dictionary x;
  y_model ← evaluate_model model_input;
  y_model ← manipulate_outcome y_model;
  y ← _dictionary_to_tensor y_model;
  mret (squeeze y).

(** *** Notions used to state the properties *)

(** The value [_dictionary_to_tensor] returns, as a function of
    [self._output_order] and its argument. *)
Definition dictionary_to_tensor_value (names : list string)
    (y_model : gmap string (tensor A)) : result (exn MExn) (tensor A) :=
  ts ← mapM (λ outcome, unsqueeze_last <$> dict_getitem y_model outcome) names;
  output_tensor ← torch_stack_last ts;
  mret (squeeze output_tensor).

(** The reassembly step in the words of the specification: the tensors
    named in [names] are stacked, in that order, along a new trailing
    axis, and all singleton dimensions of the result are collapsed. *)
Definition stack_then_squeeze (names : list string)
    (y_model : gmap string (tensor A)) : result (exn MExn) (tensor A) :=
  ts ← mapM (dict_getitem y_model) names;
  stacked ← torch_stack_last ts;
  mret (squeeze stacked).

(** Every name of [names] is bound in [y] to a tensor of shape [s]. *)
Definition named_with_shape (names : list string) (s : list nat)
    (y : gmap string (tensor A)) : Prop :=
  ∀ name, name ∈ names → ∃ t, y !! name = Some t ∧ shape t = s.

(** Called on [d] in the world [w], the wrapped model returns a mapping
    that binds every name of [self._output_order] to a tensor of shape
    [s]. *)
Definition model_returns_shape (w : world) (d : gmap string (tensor A))
    (s : list nat) : Prop :=
  ∃ y, (evaluate (_model (self w)) (model_state w) d).1 = Ok y
       ∧ named_with_shape (_output_order (self w)) s y.

(** The wrapped model's [evaluate] is the identity on mappings. *)
Definition identity_evaluate (m : PyTorchModel) : Prop :=
  ∀ st d, (evaluate m st d).1 = Ok d.

(** The slice of [x] at index [i] of its last axis, with a trailing
    singleton dimension: [lead] are the leading dimensions of [x] and [m]
    is its last one. *)
Definition is_slice (lead : list nat) (m i : nat) (x t : tensor A) : Prop :=
  shape t = lead ++ [1]
  ∧ length (data t) = numel lead
  ∧ ∀ j, j < numel lead → data t !! j = data x !! (j * m + i).

(** The split step binds the name at position [i] of
    [self._feature_order] to the slice of [x] at index [i]. *)
Definition split_binds_position (w : world) (x : tensor A)
    (lead : list nat) (m i : nat) : Prop :=
  ∃ d name t, (_tensor_to_dictionary x w).1 = Ok d
    ∧ _feature_order (self w) !! i = Some name
    ∧ d !! name = Some t
    ∧ is_slice lead m i x t.

(** The ways the reassembly of [y] along [names] can raise [e]: the
    first name that [y] lacks, an empty list of names, or two named
    tensors of different shapes. *)
Definition reassembly_raises (names : list string)
    (y : gmap string (tensor A)) (e : exn MExn) : Prop :=
  (∃ pre key post, names = pre ++ key :: post ∧ e = KeyError key
       ∧ y !! key = None ∧ ∀ n, n ∈ pre → is_Some (y !! n))
  ∨ (names = [] ∧ e = RuntimeError EmptyTensorList)
  ∨ (e = RuntimeError UnequalSizes
     ∧ (∀ n, n ∈ names → is_Some (y !! n))
     ∧ ∃ n1 n2 t1 t2, n1 ∈ names ∧ n2 ∈ names
         ∧ y !! n1 = Some t1 ∧ y !! n2 = Some t2 ∧ shape t1 ≠ shape t2).

(** [x] and [x'] hold the same elements in the first [k] columns of
    their last axis, of size [m]. *)
Definition agree_on_columns (m k : nat) (x x' : tensor A) : Prop :=
  shape x' = shape x
  ∧ ∀ p, p mod m < k → data x' !! p = data x !! p.

End LUMEModule.

Arguments PyTorchModel : clear implicits.
Arguments LUMEModule : clear implicits.
Arguments world : clear implicits.

(** ** Concrete adapters and inputs *)

(** A model whose [evaluate] returns its argument. *)
Definition identity_model : PyTorchModel nat unit unit string :=
  {| model := Some (IsModule tt); evaluate := λ st x, (Ok x, st) |}.

(** A model that counts its calls in its internal state. *)
Definition counting_model : PyTorchModel nat unit nat string :=
  {| model := Some (IsModule tt); evaluate := λ st x, (Ok x, S st) |}.

(** A model whose [evaluate] always raises. *)
Definition failing_model : PyTorchModel nat unit unit string :=
  {| model := Some (IsModule tt); evaluate := λ st x, (Err "missing input", st) |}.

(** A model whose attribute [model] is an integer. *)
Definition model_with_int : PyTorchModel nat unit unit string :=
  {| model := Some (OtherObject "int"); evaluate := λ st x, (Ok x, st) |}.

(** An object with [evaluate] and no attribute [model]. *)
Definition model_without_model : PyTorchModel nat unit unit string :=
  {| model := None; evaluate := λ st x, (Ok x, st) |}.

(** Some of the attributes of a [torch.nn.Module]. *)
Definition some_module_attributes : list string :=
  ["training"; "_parameters"; "_buffers"; "_modules"; "register_module";
   "add_module"; "__call__"; "__dict__"; "__doc__"].

(** The instance construction gives for a model that wraps a torch
    module. *)
Definition adapter (m : PyTorchModel nat unit unit string)
    (features outputs : list string) : LUMEModule nat unit unit string :=
  {| _modules := {["base_model" := Some tt]};
     _model := m;
     _feature_order := features;
     _output_order := outputs |}.

(** Shape [[2, 3, 2]], elements 0 to 11. *)
Definition x232 : tensor nat := Tensor [2; 3; 2] (seq 0 12).

(** Shape [[2, 3]]: three feature columns. *)
Definition x23 : tensor nat := Tensor [2; 3] [1; 2; 3; 4; 5; 6].

(** Shape [[5]]: rank 1. *)
Definition x5 : tensor nat := Tensor [5] [1; 2; 3; 4; 5].

(** Shape [[1, 3, 2]]: a batch of one. *)
Definition x132 : tensor nat := Tensor [1; 3; 2] (seq 0 6).

(** The adapter around [m] with the given orderings, before any call. *)
Definition world_of (m : PyTorchModel nat unit unit string)
    (features outputs : list string) : world nat unit unit string :=
  World (adapter m features outputs) tt.

(** Two outputs of shape [[2, 1]]. *)
Definition y_ab : gmap string (tensor nat) :=
  <["a" := Tensor [2; 1] [1; 2]]> (<["b" := Tensor [2; 1] [3; 4]]> ∅).

(** The mapping the split step makes of the first two columns of [x23]. *)
Definition d23 : gmap string (tensor nat) :=
  <["a" := Tensor [2; 1] [1; 4]]> (<["b" := Tensor [2; 1] [2; 5]]> ∅).

(** Outputs of different shapes. *)
Definition y_uneven : gmap string (tensor nat) :=
  <["a" := Tensor [2; 1] [1; 2]]> (<["b" := Tensor [3; 1] [3; 4; 5]]> ∅).

(** [y_ab] with one more output. *)
Definition y_abz : gmap string (tensor nat) :=
  <["z" := Tensor [1] [9]]> y_ab.

(** [x23] with other elements in its third column. *)
Definition x23' : tensor nat := Tensor [2; 3] [1; 2; 30; 4; 5; 60].

(** * Facts about the tensor operations *)

Section tensor_facts.
Context {A : Type}.
Implicit Types (l : list A) (s lead : list nat).

Lemma numel_app s1 s2 : numel (s1 ++ s2) = numel s1 * numel s2.
Proof.
  induction s1 as [|d s1 IH]; simpl; [lia|]. rewrite IH. lia.
Qed.

Lemma numel_snoc_1 s : numel (s ++ [1]) = numel s.
Proof. rewrite numel_app. simpl. lia. Qed.

Lemma split_last_snoc lead m : split_last (lead ++ [m]) = Some (lead, m).
Proof.
  induction lead as [|d lead IH]; [done|].
  change (split_last ((d :: lead) ++ [m]))
    with (match lead ++ [m] with
          | [] => Some ([], d)
          | _ :: _ => prod_map (cons d) id <$> split_last (lead ++ [m])
          end).
  rewrite IH. by destruct lead.
Qed.

Lemma split_last_Some s lead m :
  split_last s = Some (lead, m) → s = lead ++ [m].
Proof.
  revert lead. induction s as [|d s IH]; intros lead; [done|].
  destruct s as [|d' s'].
  - simpl. by intros [= <- <-].
  - change (split_last (d :: d' :: s'))
      with (prod_map (cons d) id <$> split_last (d' :: s')).
    destruct (split_last (d' :: s')) as [[lead' m']|] eqn:E; [|done].
    simpl. intros [= <- <-]. by rewrite (IH lead' eq_refl).
Qed.

Lemma take1_drop l i : take 1 (drop i l) = option_list (l !! i).
Proof.
  revert i. induction l as [|a l IH]; intros [|i]; simpl; done.
Qed.

(** One row of [select_last]: the element at [idx], then the other rows. *)
Lemma select_last_S n m idx l :
  idx < m →
  select_last (S n) m idx l
  = option_list (l !! idx) ++ select_last n m idx (drop m l).
Proof.
  intros Hidx. simpl. by rewrite take1_drop, lookup_take_lt.
Qed.

(** [select_last] reads the positions [j * m + idx] only. *)
Lemma select_last_ext n m idx l l' :
  idx < m →
  (∀ j, j < n → l !! (j * m + idx) = l' !! (j * m + idx)) →
  select_last n m idx l = select_last n m idx l'.
Proof.
  intros Hidx. revert l l'.
  induction n as [|n IH]; intros l l' Hl; [done|].
  rewrite !select_last_S by done. f_equal.
  - specialize (Hl 0). simpl in Hl. rewrite Hl; [done | lia].
  - apply IH. intros j Hj. rewrite !lookup_drop.
    specialize (Hl (S j)). simpl in Hl.
    replace (m + (j * m + idx)) with (m + j * m + idx) by lia.
    apply Hl. lia.
Qed.

Lemma select_last_lookup n m idx l j :
  length l = n * m → idx < m → j < n →
  select_last n m idx l !! j = l !! (j * m + idx).
Proof.
  intros Hlen Hidx. revert l j Hlen.
  induction n as [|n IH]; intros l j Hlen Hj; [lia|].
  rewrite select_last_S by done.
  destruct (lookup_lt_is_Some_2 l idx) as [a Ha]; [simpl in Hlen; lia|].
  rewrite Ha. simpl. destruct j as [|j]; simpl; [done|].
  rewrite IH.
  - rewrite lookup_drop. f_equal. lia.
  - rewrite length_drop. simpl in Hlen. lia.
  - lia.
Qed.

Lemma select_last_length n m idx l :
  length l = n * m → idx < m → length (select_last n m idx l) = n.
Proof.
  intros Hlen Hidx. revert l Hlen.
  induction n as [|n IH]; intros l Hlen; [done|].
  rewrite select_last_S by done.
  destruct (lookup_lt_is_Some_2 l idx) as [a Ha]; [simpl in Hlen; lia|].
  rewrite Ha. simpl. f_equal. apply IH.
  rewrite length_drop. simpl in Hlen. lia.
Qed.

Lemma concat_lookups l k :
  k ≤ length l →
  concat ((λ i, option_list (l !! i)) <$> seq 0 k) = take k l.
Proof.
  induction k as [|k IH]; intros Hk; [by rewrite take_0|].
  destruct (lookup_lt_is_Some_2 l k) as [a Ha]; [lia|].
  rewrite seq_S, fmap_app, concat_app, IH by lia. simpl.
  rewrite Ha. simpl. by rewrite (take_S_r _ _ a).
Qed.

(** Stacking the columns of a row-major matrix along the last axis
    gives the matrix back. *)
Lemma interleave_select n k l :
  length l = n * k →
  interleave n ((λ i, select_last n k i l) <$> seq 0 k) = l.
Proof.
  revert l. induction n as [|n IH]; intros l Hlen.
  { by destruct l. }
  assert (k ≤ length l) by (simpl in Hlen; lia).
  cbn [interleave]. rewrite <-!list_fmap_compose.
  transitivity (take k l ++ drop k l); [|apply take_drop]. f_equal.
  - rewrite <-concat_lookups by done. f_equal.
    apply list_fmap_ext. intros i ? [-> Hi]%lookup_seq.
    unfold compose. change (0 + i) with i. rewrite select_last_S by done.
    destruct (lookup_lt_is_Some_2 l i) as [a Ha]; [lia|].
    by rewrite Ha.
  - rewrite <-(IH (drop k l)).
    2:{ rewrite length_drop. simpl in Hlen. lia. }
    f_equal. apply list_fmap_ext. intros i ? [-> Hi]%lookup_seq.
    unfold compose. change (0 + i) with i. rewrite select_last_S by done.
    destruct (lookup_lt_is_Some_2 l i) as [a Ha]; [lia|].
    by rewrite Ha.
Qed.

Lemma concat_heads_lookup n (cols : list (list A)) i :
  Forall (λ c, length c = S n) cols →
  concat (take 1 <$> cols) !! i = cols !! i ≫= (λ c, c !! 0).
Proof.
  intros HF. revert i. induction HF as [|c cols Hc _ IH]; intros i; [done|].
  destruct c as [|a c]; [done|]. simpl.
  destruct i as [|i]; [done|]. apply IH.
Qed.

Lemma concat_heads_length n (cols : list (list A)) :
  Forall (λ c, length c = S n) cols →
  length (concat (take 1 <$> cols)) = length cols.
Proof.
  induction 1 as [|c cols Hc _ IH]; [done|].
  destruct c as [|a c]; [done|]. simpl. f_equal. apply IH.
Qed.

(** The element at position [(j, i)] of the stack is element [j] of the
    [i]-th stacked tensor. *)
Lemma interleave_lookup n (cols : list (list A)) i j col :
  Forall (λ c, length c = n) cols → cols !! i = Some col → j < n →
  interleave n cols !! (j * length cols + i) = col !! j.
Proof.
  revert cols j col. induction n as [|n IH]; intros cols j col HF Hi Hj; [lia|].
  pose proof (lookup_lt_Some _ _ _ Hi) as Hlt.
  cbn [interleave]. destruct j as [|j].
  - rewrite Nat.mul_0_l, Nat.add_0_l.
    rewrite lookup_app_l by (rewrite (concat_heads_length n); [lia|done]).
    rewrite (concat_heads_lookup n) by done. by rewrite Hi.
  - rewrite lookup_app_r by (rewrite (concat_heads_length n); [simpl; lia|done]).
    rewrite (concat_heads_length n) by done.
    replace (S j * length cols + i - length cols)
      with (j * length (drop 1 <$> cols) + i)
      by (rewrite length_fmap; simpl; lia).
    rewrite (IH _ j (drop 1 col)).
    + by rewrite lookup_drop.
    + apply Forall_fmap. eapply Forall_impl; [exact HF|].
      simpl. intros c Hc. rewrite length_drop. lia.
    + by rewrite list_lookup_fmap, Hi.
    + lia.
Qed.

(** Trailing dimensions of size 1 change neither the number of
    elements nor, once squeezed, the shape. *)
Lemma squeeze_squeeze (t : tensor A) : squeeze (squeeze t) = squeeze t.
Proof.
  unfold squeeze. simpl. f_equal.
  rewrite list_filter_filter. apply list_filter_iff. tauto.
Qed.

Lemma squeeze_no_singleton (t : tensor A) : 1 ∉ shape (squeeze t).
Proof. simpl. by intros [? _]%list_elem_of_filter. Qed.

End tensor_facts.


(** * Facts about the adapter *)

Section adapter_facts.
Context {A Net MState MExn : Type}.
Implicit Types (x xi t : tensor A) (w : world A Net MState MExn).
Implicit Types (d y : gmap string (tensor A)) (names : list string).

(** ** What a call computes and what it leaves behind *)

Lemma _validate_input_run x w :
  _validate_input x w
  = (if decide (dim x ≤ 1)
     then Err (ValueError (invalid_input_message (shape x)))
     else Ok x, w).
Proof. unfold _validate_input. by case_decide. Qed.

Lemma _tensor_to_dictionary_run x w :
  _tensor_to_dictionary x w
  = (tensor_to_dictionary_loop x 0 (_feature_order (self w)) ∅, w).
Proof. done. Qed.

Lemma _dictionary_to_tensor_run y w :
  _dictionary_to_tensor y w
  = (dictionary_to_tensor_value (_output_order (self w)) y, w).
Proof.
  unfold _dictionary_to_tensor, dictionary_to_tensor_value.
  unfold mbind at 1 2 3, M_bind, get_self, lift, mret, M_ret. simpl.
  destruct (mapM _ _) as [ts|e]; simpl; [|done].
  by destruct (torch_stack_last ts).
Qed.

Lemma forward_run x w :
  forward x w
  = if decide (dim x ≤ 1)
    then (Err (ValueError (invalid_input_message (shape x))), w)
    else match tensor_to_dictionary_loop x 0 (_feature_order (self w)) ∅ with
         | Err e => (Err e, w)
         | Ok d =>
             match evaluate (_model (self w)) (model_state w) d with
             | (Err e, st) => (Err (Raised e), World (self w) st)
             | (Ok y, st) =>
                 (squeeze <$> dictionary_to_tensor_value (_output_order (self w)) y,
                  World (self w) st)
             end
         end.
Proof.
  unfold forward. unfold mbind at 1, M_bind.
  rewrite _validate_input_run. case_decide; [done|].
  unfold mbind at 1, M_bind. rewrite _tensor_to_dictionary_run.
  destruct (tensor_to_dictionary_loop _ _ _ _) as [d|e]; [|done].
  unfold mbind at 1, M_bind.
  unfold evaluate_model, manipulate_outcome, call_evaluate.
  unfold mbind at 1, M_bind, get_self. simpl.
  destruct (evaluate _ _ _) as [[y|e] st]; [|done].
  unfold mbind at 1, M_bind, mret at 1, M_ret.
  unfold mbind at 1, M_bind. rewrite _dictionary_to_tensor_run. simpl.
  by destruct (dictionary_to_tensor_value _ _).
Qed.

(** The five ways through [forward]: the rank check fails; everything
    returns; the reassembly raises; the model raises; the split raises. *)
Ltac forward_cases :=
  rewrite forward_run; case_decide; simpl;
  [| destruct (tensor_to_dictionary_loop _ _ _ _) as [?d|?e] eqn:?Hsplit; simpl;
     [ destruct (evaluate _ _ _) as [[?y|?e] ?st]; simpl;
       [ destruct (dictionary_to_tensor_value _ _) as [?t|?e] eqn:?Hstack; simpl
       | ]
     | ] ].

(** ** The split step *)

Lemma getitem_last_snoc x lead m idx :
  shape x = lead ++ [m] → idx < m →
  getitem_last (MExn:=MExn) x idx
  = Ok (Tensor lead (select_last (numel lead) m idx (data x))).
Proof.
  intros Hs Hidx. unfold getitem_last.
  rewrite Hs, split_last_snoc. by rewrite decide_True.
Qed.

(** Run over [features], the loop binds every name that occurs to the
    slice at the position of its last occurrence, and leaves the other
    names as they were. *)
Lemma tensor_to_dictionary_loop_spec x lead m features idx d0 :
  shape x = lead ++ [m] → idx + length features ≤ m →
  ∃ d, tensor_to_dictionary_loop (MExn:=MExn) x idx features d0 = Ok d
    ∧ (∀ name, name ∉ features → d !! name = d0 !! name)
    ∧ (∀ i name, features !! i = Some name → name ∉ drop (S i) features →
         d !! name
         = Some (unsqueeze_last
                   (Tensor lead (select_last (numel lead) m (idx + i) (data x))))).
Proof.
  intros Hs. revert idx d0.
  induction features as [|feature rest IH]; intros idx d0 Hlen.
  { exists d0. split_and!; [done|done|]. by intros []. }
  simpl in Hlen. cbn [tensor_to_dictionary_loop].
  rewrite (getitem_last_snoc x lead m idx) by (done || lia).
  unfold mbind at 1, result_bind.
  destruct (IH (S idx) (<[feature:=unsqueeze_last
    (Tensor lead (select_last (numel lead) m idx (data x)))]> d0))
    as (d & Hd & Hout & Hin); [lia|].
  exists d. split_and!; [done| |].
  - intros name [Hne Hnot]%not_elem_of_cons.
    rewrite Hout by done. by rewrite lookup_insert_ne.
  - intros [|i] name Hi Hlast; simpl in Hi, Hlast.
    + injection Hi as ->. rewrite Hout by done.
      rewrite lookup_insert_eq. by rewrite Nat.add_0_r.
    + rewrite (Hin i name) by done. do 4 f_equal. lia.
Qed.

(** The loop depends on its tensor through the slices it takes. *)
Lemma tensor_to_dictionary_loop_ext x x' features idx d0 :
  (∀ i, idx ≤ i < idx + length features →
        getitem_last (MExn:=MExn) x' i = getitem_last x i) →
  tensor_to_dictionary_loop (MExn:=MExn) x' idx features d0
  = tensor_to_dictionary_loop x idx features d0.
Proof.
  revert idx d0. induction features as [|feature rest IH]; intros idx d0 H.
  { done. }
  cbn [tensor_to_dictionary_loop]. simpl in H.
  rewrite H by lia. destruct (getitem_last x idx) as [xi|e]; [|done].
  unfold mbind, result_bind. apply IH. intros i Hi. apply H. lia.
Qed.

Lemma NoDup_not_later (l : list string) i name :
  NoDup l → l !! i = Some name → name ∉ drop (S i) l.
Proof.
  intros Hnd Hi [j Hj]%list_elem_of_lookup_1.
  rewrite lookup_drop in Hj.
  pose proof (proj1 (NoDup_alt l) Hnd _ _ _ Hi Hj). lia.
Qed.

(** ** The reassembly step *)

Lemma mapM_result_Ok {X Y} (f : X → result (exn MExn) Y) (l : list X) :
  Forall (λ a, ∃ b, f a = Ok b) l →
  ∃ k, mapM f l = Ok k ∧ Forall2 (λ a b, f a = Ok b) l k.
Proof.
  induction 1 as [|a l [b Hb] _ (k & Hk & HF)].
  { exists []. by split. }
  exists (b :: k). split; [|by constructor].
  simpl. rewrite Hb, Hk. done.
Qed.

Lemma mapM_result_seq {X Y} (f : X → result (exn MExn) Y) (g : nat → Y)
    (l : list X) j :
  (∀ i a, l !! i = Some a → f a = Ok (g (j + i))) →
  mapM f l = Ok (g <$> seq j (length l)).
Proof.
  revert j. induction l as [|a l IH]; intros j H; [done|].
  simpl. rewrite (H 0 a eq_refl), Nat.add_0_r.
  rewrite (IH (S j)); [done|].
  intros i b Hi. rewrite (H (S i) b Hi). f_equal. f_equal. lia.
Qed.

Lemma mapM_result_fmap {X Y Z} (f : X → result (exn MExn) Y) (h : Y → Z)
    (l : list X) :
  mapM (λ a, h <$> f a) l = fmap (fmap h) (mapM f l).
Proof.
  induction l as [|a l IH]; [done|].
  simpl. rewrite IH. destruct (f a) as [b|e]; [|done]. simpl.
  by destruct (mapM f l).
Qed.

Lemma filter_singleton_snoc (s : list nat) :
  filter (λ k, k ≠ 1) (s ++ [1]) = filter (λ k, k ≠ 1) s.
Proof. rewrite filter_app. simpl. apply app_nil_r. Qed.

Lemma torch_stack_last_Ok (ts : list (tensor A)) s :
  ts ≠ [] → Forall (λ t, shape t = s) ts →
  torch_stack_last (MExn:=MExn) ts
  = Ok (Tensor (s ++ [length ts]) (interleave (numel s) (data <$> ts))).
Proof.
  intros Hne HF. destruct ts as [|t0 rest]; [done|].
  apply Forall_cons in HF as [Ht0 Hrest]. unfold torch_stack_last.
  rewrite decide_True; [by rewrite Ht0|].
  eapply Forall_impl; [exact Hrest|]. simpl. congruence.
Qed.

(** Unsqueezing every tensor before stacking adds one singleton
    dimension, which the squeeze removes again. *)
Lemma stack_unsqueezed (ts : list (tensor A)) :
  squeeze <$> torch_stack_last (MExn:=MExn) (unsqueeze_last <$> ts)
  = squeeze <$> torch_stack_last ts.
Proof.
  destruct ts as [|t0 rest]; [done|].
  unfold torch_stack_last. cbn [fmap list_fmap].
  destruct (decide (Forall (λ t, shape t = shape t0) rest)) as [H|H].
  - rewrite decide_True.
    2:{ apply Forall_fmap. eapply Forall_impl; [exact H|].
        simpl. by intros t ->. }
    simpl. unfold squeeze. simpl. f_equal. f_equal.
    + rewrite !filter_app, length_fmap. simpl. by rewrite app_nil_r.
    + rewrite numel_snoc_1. do 2 f_equal.
      rewrite <-list_fmap_compose. by apply list_fmap_ext.
  - rewrite decide_False; [done|].
    intros H'. apply H. apply Forall_fmap in H'.
    eapply Forall_impl; [exact H'|]. simpl.
    intros t Ht. by apply app_inv_tail in Ht.
Qed.

Lemma dictionary_to_tensor_value_spec names y :
  dictionary_to_tensor_value (MExn:=MExn) names y = stack_then_squeeze names y.
Proof.
  unfold dictionary_to_tensor_value, stack_then_squeeze.
  rewrite mapM_result_fmap.
  destruct (mapM (dict_getitem y) names) as [ts|e]; [|done].
  simpl. pose proof (stack_unsqueezed ts) as H.
  destruct (torch_stack_last (unsqueeze_last <$> ts)),
    (torch_stack_last ts); simpl in *; congruence.
Qed.

Lemma dictionary_to_tensor_value_nil y :
  dictionary_to_tensor_value (MExn:=MExn) [] y
  = Err (RuntimeError EmptyTensorList).
Proof. done. Qed.

Lemma dict_getitem_Ok {V} (m : gmap string V) key v :
  dict_getitem (MExn:=MExn) m key = Ok v ↔ m !! key = Some v.
Proof.
  unfold dict_getitem. destruct (m !! key); split; congruence.
Qed.

Lemma dictionary_to_tensor_value_Ok names y s :
  names ≠ [] → named_with_shape names s y →
  ∃ ts, Forall2 (λ name t, y !! name = Some t) names ts
    ∧ Forall (λ t, shape t = s) ts
    ∧ dictionary_to_tensor_value (MExn:=MExn) names y
      = Ok (Tensor (filter (λ k, k ≠ 1) (s ++ [length names]))
                   (interleave (numel s) (data <$> ts))).
Proof.
  intros Hne Hy.
  destruct (mapM_result_Ok (dict_getitem (MExn:=MExn) y) names)
    as (ts & Hts & HF).
  { apply Forall_forall. intros name Hname.
    destruct (Hy name Hname) as (t & Ht & _).
    exists t. by apply dict_getitem_Ok. }
  assert (Forall (λ t, shape t = s) ts) as Hshapes.
  { apply Forall_forall. intros t Ht.
    destruct (proj1 (list_elem_of_lookup _ _) Ht) as [i Hi].
    destruct (Forall2_lookup_r _ _ _ _ _ HF Hi) as (name & Hname & Hget).
    destruct (Hy name) as (t' & Ht' & Hs).
    { by eapply list_elem_of_lookup_2. }
    apply dict_getitem_Ok in Hget. congruence. }
  exists ts. split_and!; [|done|].
  { eapply Forall2_impl; [exact HF|]. intros name t. apply dict_getitem_Ok. }
  rewrite dictionary_to_tensor_value_spec. unfold stack_then_squeeze.
  rewrite Hts. simpl.
  rewrite (torch_stack_last_Ok ts s); [|intros ->; by inversion HF|done].
  simpl. unfold squeeze. simpl.
  by rewrite (Forall2_length _ _ _ HF).
Qed.

(** ** Which exception comes from where *)

Lemma getitem_last_Err x idx e :
  getitem_last (MExn:=MExn) x idx = Err e → e = IndexError.
Proof.
  unfold getitem_last. destruct (split_last (shape x)) as [[lead m]|].
  - case_decide; congruence.
  - congruence.
Qed.

Lemma tensor_to_dictionary_loop_Err x idx features d0 e :
  tensor_to_dictionary_loop (MExn:=MExn) x idx features d0 = Err e →
  e = IndexError.
Proof.
  revert idx d0. induction features as [|feature rest IH]; intros idx d0.
  { done. }
  cbn [tensor_to_dictionary_loop].
  destruct (getitem_last x idx) as [xi|e'] eqn:E; simpl.
  - apply IH.
  - intros [= <-]. by eapply getitem_last_Err.
Qed.

Lemma mapM_getitem_Err names y (h : tensor A → tensor A) e :
  mapM (λ outcome, h <$> dict_getitem (MExn:=MExn) y outcome) names = Err e →
  ∃ key, e = KeyError key.
Proof.
  induction names as [|name names IH]; [by cbv|].
  cbn [mapM]. destruct (dict_getitem y name) as [t|e'] eqn:E; simpl.
  - destruct (mapM _ names); simpl; [by cbv|]. intros [= <-]. by apply IH.
  - intros [= <-]. unfold dict_getitem in E.
    destruct (y !! name); [done|]. injection E as <-. by eexists.
Qed.

Lemma dictionary_to_tensor_value_Err names y e :
  dictionary_to_tensor_value (MExn:=MExn) names y = Err e →
  (∃ key, e = KeyError key) ∨ (∃ why, e = RuntimeError why).
Proof.
  unfold dictionary_to_tensor_value.
  destruct (mapM _ names) as [ts|e'] eqn:E; simpl.
  - unfold torch_stack_last. destruct ts as [|t0 rest]; simpl.
    + intros [= <-]. right. by eexists.
    + case_decide; simpl; [done|]. intros [= <-]. right. by eexists.
  - intros [= <-]. left. by eapply mapM_getitem_Err.
Qed.

(** A [ValueError] leaves [forward] only through the rank check. *)
Lemma forward_ValueError_inv x w msg :
  (forward x w).1 = Err (ValueError msg) →
  dim x ≤ 1 ∧ msg = invalid_input_message (shape x).
Proof.
  forward_cases; [by intros [= <-] | done | | done | ].
  - intros [= ->].
    by apply dictionary_to_tensor_value_Err in Hstack as [[? ?]|[? ?]].
  - intros [= ->]. by apply tensor_to_dictionary_loop_Err in Hsplit.
Qed.

(** ** The properties of the specification *)

(** C2: [forward] raises the ValueError of the rank check if and only if
    the input has rank 0 or 1.  The error is a function of the input
    alone, it is raised before the model is called (the world is left as
    it was), its message names the expected layout
    [[n_samples, n_features]] and the shape received, and an input of
    rank 2 or more never raises a ValueError of the adapter, whatever its
    number of features. *)
Theorem forward_ValueError_iff_rank_below_2 x w :
  ((forward x w).1 = Err (ValueError (invalid_input_message (shape x)))
   ↔ dim x = 0 ∨ dim x = 1)
  ∧ (∀ msg, (forward x w).1 = Err (ValueError msg) →
            (dim x = 0 ∨ dim x = 1) ∧ msg = invalid_input_message (shape x))
  ∧ (∀ msg, 2 ≤ dim x → (forward x w).1 ≠ Err (ValueError msg))
  ∧ (dim x = 0 ∨ dim x = 1 → (forward x w).2 = w)
  ∧ invalid_input_message (shape x)
    = "Expected input dim to be at least 2 (" +:+ expected_shape_text
      +:+ "), " +:+ newline +:+ "                received: "
      +:+ tuple_repr (shape x).
Proof.
  split_and!.
  - split.
    + intros [H _]%forward_ValueError_inv. lia.
    + intros H. rewrite forward_run. rewrite decide_True by lia. done.
  - intros msg [H ->]%forward_ValueError_inv. split; [lia|done].
  - intros msg Hdim [H _]%forward_ValueError_inv. lia.
  - intros H. rewrite forward_run. rewrite decide_True by lia. done.
  - done.
Qed.

(** C6: a call of [forward] leaves the adapter object as it was: its
    model, its feature order, its output order and its table of
    submodules are the same after the call, whether the call returns or
    raises.  Only the internal state of the wrapped model object can
    differ, and only as the model's own [evaluate] changes it. *)
Theorem forward_leaves_adapter_unchanged x w :
  self (forward x w).2 = self w
  ∧ _model (self (forward x w).2) = _model (self w)
  ∧ _feature_order (self (forward x w).2) = _feature_order (self w)
  ∧ _output_order (self (forward x w).2) = _output_order (self w)
  ∧ ((forward x w).2 = w
     ∨ ∃ d, (_tensor_to_dictionary x w).1 = Ok d
          ∧ (forward x w).2
            = World (self w) (evaluate (_model (self w)) (model_state w) d).2).
Proof.
  assert (self (forward x w).2 = self w
          ∧ ((forward x w).2 = w
             ∨ ∃ d, (_tensor_to_dictionary x w).1 = Ok d
                  ∧ (forward x w).2
                    = World (self w)
                        (evaluate (_model (self w)) (model_state w) d).2))
    as [Hself Hworld].
  { rewrite forward_run, _tensor_to_dictionary_run. simpl.
    case_decide; [by split; [|left]|].
    destruct (tensor_to_dictionary_loop _ _ _ _) as [d|e]; [|by split; [|left]].
    split.
    - by destruct (evaluate _ _ _) as [[y|e] st].
    - right. exists d. split; [done|].
      by destruct (evaluate _ _ _) as [[y|e] st]. }
  split_and!; [done| | | |done]; by rewrite Hself.
Qed.

(** ** The constructor *)

Lemma base_model_not_defined :
  "base_model" ∉ instance_attributes ++ class_attributes.
Proof. apply (bool_decide_unpack _). vm_compute. exact I. Qed.

Lemma __init___value (attrs : list string) (dflt : defaults)
    (m : PyTorchModel A Net MState MExn)
    (features outputs : option (list string)) module :
  "base_model" ∉ attrs → model m = Some module →
  (∀ typename, module ≠ OtherObject typename) →
  __init__ (MExn:=MExn) attrs dflt m features outputs
  = Ok {| _modules := registered module;
          _model := m;
          _feature_order := default (default_feature_order dflt) features;
          _output_order := default (default_output_order dflt) outputs |}.
Proof.
  intros Hattrs Hm Hmodule. unfold __init__, getattr_model. simpl.
  rewrite Hm. simpl. unfold register_module. simpl.
  assert (¬ (hasattr attrs
               {| _modules := ∅; _model := m;
                  _feature_order := default (default_feature_order dflt) features;
                  _output_order := default (default_output_order dflt) outputs |}
               "base_model"
             ∧ "base_model" ∉ dom (∅ : gmap string (option Net)))) as Hfree.
  { intros [[Hin|Hin] _].
    - rewrite app_assoc in Hin. apply elem_of_app in Hin as [Hin|Hin].
      + by apply base_model_not_defined.
      + done.
    - simpl in Hin. by rewrite dom_empty_L in Hin. }
  destruct module as [net| |typename].
  - rewrite decide_False by done. unfold registered. by rewrite insert_empty.
  - rewrite decide_False by done. unfold registered. by rewrite insert_empty.
  - by destruct (Hmodule typename).
Qed.

(** Whatever the constructor returns holds the model and the orderings
    as they were passed or defaulted. *)
Lemma __init___Ok_inv (attrs : list string) (dflt : defaults)
    (m : PyTorchModel A Net MState MExn)
    (features outputs : option (list string)) s :
  __init__ (MExn:=MExn) attrs dflt m features outputs = Ok s →
  _model s = m
  ∧ _feature_order s = default (default_feature_order dflt) features
  ∧ _output_order s = default (default_output_order dflt) outputs
  ∧ ∃ module, model m = Some module
            ∧ (∀ typename, module ≠ OtherObject typename)
            ∧ _modules s = registered module.
Proof.
  unfold __init__, getattr_model. simpl.
  destruct (model m) as [module|] eqn:Hm; simpl; [|done].
  unfold register_module. simpl.
  destruct module as [net| |typename]; [| |done].
  - case_decide; [done|]. intros [= <-]. simpl. split_and!; try done.
    exists (IsModule net). split_and!; [done|done|].
    unfold registered. by rewrite insert_empty.
  - case_decide; [done|]. intros [= <-]. simpl. split_and!; try done.
    exists IsNone. split_and!; [done|done|].
    unfold registered. by rewrite insert_empty.
Qed.

(** C7: the constructor compares nothing with the orderings: for every
    pair of name lists, passed or defaulted, it succeeds exactly when the
    model argument has an attribute [model] that is a torch module or
    [None], and then the instance holds the model and the two orderings
    as given, an omitted ordering being the shared default list, and the
    model's module registered as [base_model].  Without an attribute
    [model] the constructor raises AttributeError, and with one of
    another type [register_module] raises TypeError.  ([base_model] is
    none of the attributes an instance inherits from torch.) *)
Theorem __init___succeeds_iff (attrs : list string) (dflt : defaults)
    (m : PyTorchModel A Net MState MExn)
    (features outputs : option (list string)) :
  "base_model" ∉ attrs →
  ((∃ s, __init__ (MExn:=MExn) attrs dflt m features outputs = Ok s)
   ↔ ∃ module, model m = Some module
             ∧ ∀ typename, module ≠ OtherObject typename)
  ∧ (∀ s, __init__ (MExn:=MExn) attrs dflt m features outputs = Ok s →
       _model s = m
       ∧ _feature_order s = default (default_feature_order dflt) features
       ∧ _output_order s = default (default_output_order dflt) outputs
       ∧ feature_order s = default (default_feature_order dflt) features
       ∧ output_order s = default (default_output_order dflt) outputs
       ∧ ∃ module, model m = Some module ∧ _modules s = registered module)
  ∧ (model m = None →
     __init__ (MExn:=MExn) attrs dflt m features outputs
     = Err (AttributeError "model"))
  ∧ (∀ typename, model m = Some (OtherObject typename) →
     __init__ (MExn:=MExn) attrs dflt m features outputs
     = Err (TypeError (typename +:+ " is not a Module subclass"))).
Proof.
  intros Hattrs. split_and!.
  - split.
    + intros [s Hs]. apply __init___Ok_inv in Hs
        as (_ & _ & _ & module & Hm & Hmodule & _).
      by exists module.
    + intros (module & Hm & Hmodule). eexists.
      by apply (__init___value attrs dflt m features outputs module).
  - intros s Hs. apply __init___Ok_inv in Hs
      as (Hmodel & Hfo & Hoo & module & Hm & _ & Hmodules).
    split_and!; try done. by exists module.
  - intros Hm. unfold __init__, getattr_model. simpl. by rewrite Hm.
  - intros typename Hm. unfold __init__, getattr_model. simpl.
    by rewrite Hm.
Qed.

(** C9: a tensor returned by [forward] has no dimension of size 1,
    whichever axis of the stacked output that size came from. *)
Theorem forward_result_has_no_singleton x w t :
  (forward x w).1 = Ok t → 1 ∉ shape t.
Proof.
  forward_cases; [done | | done | done | done].
  intros [= <-]. apply squeeze_no_singleton.
Qed.

Lemma getitem_last_agree x x' lead m k i :
  shape x = lead ++ [m] → agree_on_columns m k x x' → i < k → k ≤ m →
  getitem_last (MExn:=MExn) x' i = getitem_last x i.
Proof.
  intros Hs [Hs' Hdata] Hi Hk.
  rewrite (getitem_last_snoc x lead m i) by (done || lia).
  rewrite (getitem_last_snoc x' lead m i) by (congruence || lia).
  do 2 f_equal. apply select_last_ext; [lia|].
  intros j _. apply Hdata.
  rewrite Nat.add_comm, Nat.Div0.mod_add, Nat.mod_small; lia.
Qed.

(** C8: on an input of rank 2 or more whose last dimension is larger
    than the number of feature names, the split step raises nothing and
    reads the first [len(feature_order)] columns only: it returns the
    same mapping on every input of that shape with the same elements in
    those columns. *)
Theorem split_ignores_surplus_columns x w lead m :
  shape x = lead ++ [m] → 2 ≤ dim x →
  length (_feature_order (self w)) < m →
  ∃ d, _tensor_to_dictionary x w = (Ok d, w)
     ∧ ∀ x', agree_on_columns m (length (_feature_order (self w))) x x' →
             _tensor_to_dictionary x' w = (Ok d, w).
Proof.
  intros Hs _ Hlen.
  destruct (tensor_to_dictionary_loop_spec x lead m
              (_feature_order (self w)) 0 ∅ Hs) as (d & Hd & _); [lia|].
  exists d. rewrite !_tensor_to_dictionary_run, Hd. split; [done|].
  intros x' Hagree. rewrite _tensor_to_dictionary_run.
  rewrite (tensor_to_dictionary_loop_ext x x'), Hd; [done|].
  intros i Hi. eapply getitem_last_agree; [done|done|lia|lia].
Qed.

Lemma split_binds_position_intro x w lead m i name :
  shape x = lead ++ [m] → tensor_wf x →
  length (_feature_order (self w)) ≤ m →
  _feature_order (self w) !! i = Some name →
  name ∉ drop (S i) (_feature_order (self w)) →
  split_binds_position w x lead m i.
Proof.
  intros Hs Hwf Hlen Hi Hlast.
  destruct (tensor_to_dictionary_loop_spec x lead m
              (_feature_order (self w)) 0 ∅ Hs) as (d & Hd & _ & Hin); [lia|].
  pose proof (lookup_lt_Some _ _ _ Hi) as Hlt.
  assert (length (data x) = numel lead * m) as Hdata.
  { unfold tensor_wf in Hwf. rewrite Hwf, Hs, numel_app. simpl. lia. }
  exists d, name, (unsqueeze_last
    (Tensor lead (select_last (numel lead) m i (data x)))).
  rewrite _tensor_to_dictionary_run, Hd. split_and!; [done|done| |].
  - by rewrite (Hin i name Hi Hlast).
  - split_and!; [done| |]; simpl.
    + apply select_last_length; [done|lia].
    + intros j Hj. apply select_last_lookup; [done|lia|done].
Qed.

(** C4: on a well-formed input of rank 2 or more whose last dimension is
    at least the number of feature names, the split step binds the name
    at position [i] of the feature order to the slice at index [i],
    leading dimensions kept and a singleton dimension appended, for every
    position [i] whose name does not occur again later in the feature
    order; so for every position when the names are distinct. *)
Theorem split_binds_last_occurrence x w lead m :
  shape x = lead ++ [m] → 2 ≤ dim x → tensor_wf x →
  length (_feature_order (self w)) ≤ m →
  (∀ i name, _feature_order (self w) !! i = Some name →
             name ∉ drop (S i) (_feature_order (self w)) →
             split_binds_position w x lead m i)
  ∧ (NoDup (_feature_order (self w)) →
     ∀ i, i < length (_feature_order (self w)) →
          split_binds_position w x lead m i).
Proof.
  intros Hs _ Hwf Hlen. split.
  - intros i name. by apply split_binds_position_intro.
  - intros Hnd i [name Hi]%lookup_lt_is_Some_2.
    apply (split_binds_position_intro x w lead m i name); try done.
    by apply NoDup_not_later.
Qed.

(** C5: on a mapping that binds every name of the output order to a
    tensor of one common shape [s], [_dictionary_to_tensor] returns what
    stacking the named tensors, in that order, along a new trailing axis
    and collapsing all singleton dimensions returns (an exception when
    the output order is empty, for there is nothing to stack).  For a
    non-empty output order of [k] names that is the tensor of shape
    [s ++ [k]] without its singleton dimensions whose element at position
    [j] of the [i]-th column is element [j] of the tensor bound to the
    [i]-th name.  The second squeeze, in [forward], changes nothing. *)
Theorem reassembly_is_stack_then_squeeze y w s :
  named_with_shape (_output_order (self w)) s y →
  (_dictionary_to_tensor y w).1 = stack_then_squeeze (_output_order (self w)) y
  ∧ (_output_order (self w) ≠ [] →
     ∃ ts t, Forall2 (λ name ti, y !! name = Some ti) (_output_order (self w)) ts
       ∧ (_dictionary_to_tensor y w).1 = Ok t
       ∧ shape t
         = filter (λ k, k ≠ 1) (s ++ [length (_output_order (self w))])
       ∧ (Forall tensor_wf ts →
          ∀ i j ti, ts !! i = Some ti → j < numel s →
            data t !! (j * length (_output_order (self w)) + i)
            = data ti !! j))
  ∧ squeeze <$> (_dictionary_to_tensor y w).1 = (_dictionary_to_tensor y w).1.
Proof.
  intros Hy. rewrite _dictionary_to_tensor_run. simpl. split_and!.
  - apply dictionary_to_tensor_value_spec.
  - intros Hne.
    destruct (dictionary_to_tensor_value_Ok _ y s Hne Hy)
      as (ts & HF & Hshapes & Hts).
    exists ts. eexists. split_and!; [done|exact Hts|done|].
    intros Hwf i j ti Hi Hj. cbn [data].
    rewrite (Forall2_length _ _ _ HF), <-(length_fmap data ts).
    apply interleave_lookup; [|by rewrite list_lookup_fmap, Hi|done].
    apply Forall_fmap, Forall_forall. intros t' Ht'. simpl.
    rewrite <-(proj1 (Forall_forall _ _) Hshapes t' Ht').
    by apply (proj1 (Forall_forall _ _) Hwf).
  - rewrite dictionary_to_tensor_value_spec. unfold stack_then_squeeze.
    destruct (mapM _ _) as [ts|e]; simpl; [|done].
    destruct (torch_stack_last ts) as [t|e]; simpl; [|done].
    by rewrite squeeze_squeeze.
Qed.

Lemma squeeze_shape_snoc lead k :
  filter (λ j, j ≠ 1) (filter (λ j, j ≠ 1) ((lead ++ [1]) ++ [k]))
  = filter (λ j, j ≠ 1) (lead ++ [k]).
Proof.
  rewrite list_filter_filter.
  rewrite (list_filter_iff _ (λ j, j ≠ 1)) by tauto.
  rewrite !filter_app. simpl. by rewrite app_nil_r.
Qed.

Lemma squeeze_stacked lead k (l : list A) :
  squeeze (squeeze (Tensor (((lead ++ [1]) ++ [1]) ++ [k]) l))
  = squeeze (Tensor (lead ++ [k]) l).
Proof.
  rewrite squeeze_squeeze. unfold squeeze. cbn [shape data]. f_equal.
  rewrite !filter_app. simpl. by rewrite !app_nil_r.
Qed.

(** The shape of the result when the model answers with tensors of shape
    [lead ++ [1]], for leading dimensions [lead] of any rank. *)
Lemma forward_shape_general x w lead :
  shape x = lead ++ [length (_feature_order (self w))] → lead ≠ [] →
  _output_order (self w) ≠ [] →
  (∀ d, (_tensor_to_dictionary x w).1 = Ok d →
        model_returns_shape w d (lead ++ [1])) →
  ∃ t, (forward x w).1 = Ok t
     ∧ shape t = filter (λ k, k ≠ 1) (lead ++ [length (_output_order (self w))]).
Proof.
  intros Hs Hlead Hne Hmodel.
  destruct (tensor_to_dictionary_loop_spec x lead _
              (_feature_order (self w)) 0 ∅ Hs) as (d & Hd & _); [lia|].
  destruct (Hmodel d) as (y & Hy & Hnamed).
  { by rewrite _tensor_to_dictionary_run, Hd. }
  destruct (dictionary_to_tensor_value_Ok _ y _ Hne Hnamed)
    as (ts & _ & _ & Hts).
  rewrite forward_run, decide_False, Hd.
  2:{ unfold dim. rewrite Hs, length_app. destruct lead; simpl; [done|lia]. }
  destruct (evaluate _ _ _) as [r st]. simpl in Hy. subst r.
  rewrite Hts. simpl. eexists. split; [done|]. simpl.
  apply squeeze_shape_snoc.
Qed.

(** C1: on an input of shape [[b, n, len(feature_order)]], when the
    output order is not empty and the wrapped model returns, for every
    name of the output order, a tensor of shape [[b, n, 1]], [forward]
    returns a tensor whose shape is [[b, n, len(output_order)]] without
    its dimensions of size 1.  With one output name that is [[b, n]]
    without its dimensions of size 1: [[b, n]] when both are at least 2,
    [[n]] when only [b] is 1. *)
Theorem forward_shape x w b n :
  shape x = [b; n; length (_feature_order (self w))] → 1 ≤ b → 1 ≤ n →
  _output_order (self w) ≠ [] →
  (∀ d, (_tensor_to_dictionary x w).1 = Ok d →
        model_returns_shape w d [b; n; 1]) →
  ∃ t, (forward x w).1 = Ok t
     ∧ shape t = filter (λ k, k ≠ 1) [b; n; length (_output_order (self w))]
     ∧ (length (_output_order (self w)) = 1 →
        shape t = filter (λ k, k ≠ 1) [b; n]
        ∧ (2 ≤ b → 2 ≤ n → shape t = [b; n])
        ∧ (b = 1 → 2 ≤ n → shape t = [n])).
Proof.
  intros Hs _ _ Hne Hmodel.
  destruct (forward_shape_general x w [b; n]) as (t & Ht & Hshape);
    [done|done|done|done|].
  exists t. split_and!; [done|done|]. intros Hone.
  rewrite Hshape, Hone, filter_singleton_snoc. split_and!; [done| |].
  - intros Hb Hn. rewrite !filter_cons_True by lia. done.
  - intros -> Hn. rewrite filter_cons_False by (simpl; lia).
    rewrite filter_cons_True by lia. done.
Qed.

(** With distinct feature names, the same names as output order and a
    model that returns its argument, [forward] returns its input
    squeezed; the leading dimensions may have any rank. *)
Lemma forward_identity_general x w lead k :
  shape x = lead ++ [k] → lead ≠ [] → 1 ≤ k → tensor_wf x →
  _output_order (self w) = _feature_order (self w) →
  length (_feature_order (self w)) = k →
  NoDup (_feature_order (self w)) →
  identity_evaluate (_model (self w)) →
  (forward x w).1 = Ok (squeeze x).
Proof.
  intros Hs Hlead Hk Hwf Hoo Hlen Hnd Hid.
  destruct (tensor_to_dictionary_loop_spec x lead k
              (_feature_order (self w)) 0 ∅ Hs) as (d & Hd & _ & Hin); [lia|].
  rewrite forward_run, decide_False, Hd.
  2:{ unfold dim. rewrite Hs, length_app. destruct lead; simpl; [done|lia]. }
  specialize (Hid (model_state w) d).
  destruct (evaluate _ _ _) as [r st]. simpl in Hid. subst r.
  rewrite Hoo. unfold dictionary_to_tensor_value.
  set (g := λ i, unsqueeze_last (unsqueeze_last
         (Tensor lead (select_last (numel lead) k i (data x))))).
  rewrite (mapM_result_seq _ g _ 0).
  2:{ intros i name Hi. unfold dict_getitem.
      by rewrite (Hin i name Hi (NoDup_not_later _ _ _ Hnd Hi)). }
  simpl. rewrite (torch_stack_last_Ok _ ((lead ++ [1]) ++ [1])).
  2:{ intros Hnil%(f_equal length).
      rewrite length_fmap, length_seq in Hnil. simpl in Hnil. lia. }
  2:{ apply Forall_fmap, Forall_forall. by intros i _. }
  cbn [mbind result_bind mret result_ret fmap result_fmap]. f_equal.
  rewrite squeeze_stacked, length_fmap, length_seq, Hlen.
  unfold squeeze. rewrite Hs. cbn [shape data]. f_equal.
  rewrite !numel_snoc_1, <-list_fmap_compose.
  apply (interleave_select (numel lead) k (data x)).
  unfold tensor_wf in Hwf. rewrite Hwf, Hs, numel_app. simpl. lia.
Qed.

(** C3: on a well-formed input of shape [[b, n, k]], with [k] distinct
    feature names that are also the output order and a model whose
    [evaluate] returns its argument, [forward] returns the elements of
    the input, in their order, under the shape of the input without its
    dimensions of size 1. *)
Theorem forward_round_trip x w b n k :
  shape x = [b; n; k] → 1 ≤ b → 1 ≤ n → 1 ≤ k → tensor_wf x →
  _output_order (self w) = _feature_order (self w) →
  length (_feature_order (self w)) = k →
  NoDup (_feature_order (self w)) →
  identity_evaluate (_model (self w)) →
  (forward x w).1 = Ok (squeeze x)
  ∧ data (squeeze x) = data x
  ∧ shape (squeeze x) = filter (λ j, j ≠ 1) [b; n; k].
Proof.
  intros Hs _ _ Hk Hwf Hoo Hlen Hnd Hid. split_and!.
  - by apply (forward_identity_general x w [b; n] k).
  - done.
  - simpl. by rewrite Hs.
Qed.

Lemma forward_empty_output_order x w t :
  _output_order (self w) = [] → (forward x w).1 ≠ Ok t.
Proof.
  intros Hoo. forward_cases; [done | | done | done | done].
  by rewrite Hoo, dictionary_to_tensor_value_nil in Hstack.
Qed.

(** C10: an adapter constructed with the default output order, the
    default being empty, never returns from [forward]: every call raises.
    On an input of rank below 2 the exception is the ValueError of the
    rank check.  On an input of rank 2 or more it is the IndexError of
    the split step when the split raises; else the exception of the
    wrapped model, as the model raised it, when the model raises; else
    the RuntimeError of stacking an empty list of tensors.  With the
    default, empty feature order as well the split step returns the empty
    mapping. *)
Theorem forward_default_output_order_raises (attrs : list string)
    (dflt : defaults) (m : PyTorchModel A Net MState MExn)
    (features : option (list string)) x w :
  __init__ (MExn:=MExn) attrs dflt m features None = Ok (self w) →
  default_output_order dflt = [] →
  (∀ t, (forward x w).1 ≠ Ok t)
  ∧ (dim x ≤ 1 →
     (forward x w).1 = Err (ValueError (invalid_input_message (shape x))))
  ∧ (2 ≤ dim x →
     (∀ e, (_tensor_to_dictionary x w).1 = Err e →
           e = IndexError ∧ (forward x w).1 = Err e)
     ∧ (∀ d, (_tensor_to_dictionary x w).1 = Ok d →
          (∀ e, (evaluate m (model_state w) d).1 = Err e →
                (forward x w).1 = Err (Raised e))
          ∧ (∀ y, (evaluate m (model_state w) d).1 = Ok y →
                  (forward x w).1 = Err (RuntimeError EmptyTensorList))))
  ∧ (features = None → default_feature_order dflt = [] →
     (_tensor_to_dictionary x w).1 = Ok ∅).
Proof.
  intros Hinit Hdflt.
  apply __init___Ok_inv in Hinit as (Hm & Hfo & Hoo & _).
  simpl in Hoo. rewrite Hdflt in Hoo. split_and!.
  - intros t. by apply forward_empty_output_order.
  - intros Hdim. rewrite forward_run. by rewrite decide_True.
  - intros Hdim. rewrite _tensor_to_dictionary_run, forward_run.
    rewrite decide_False, Hm, Hoo by lia. simpl. split.
    + intros e He. split; [by eapply tensor_to_dictionary_loop_Err|].
      by rewrite He.
    + intros d Hd. rewrite Hd. split.
      * intros e He. destruct (evaluate _ _ _) as [r st].
        simpl in He. by subst r.
      * intros y Hy. destruct (evaluate _ _ _) as [r st].
        simpl in Hy. by subst r.
  - intros -> Hdfo. rewrite _tensor_to_dictionary_run. simpl.
    simpl in Hfo. by rewrite Hfo, Hdfo.
Qed.

(** ** Further properties of the split step *)

Lemma getitem_last_rank_0 x idx :
  split_last (shape x) = None → getitem_last (MExn:=MExn) x idx = Err IndexError.
Proof. unfold getitem_last. by intros ->. Qed.

(** Once the loop has to index past the last axis it raises. *)
Lemma tensor_to_dictionary_loop_short x lead m features idx d0 :
  shape x = lead ++ [m] → idx ≤ m → m < idx + length features →
  tensor_to_dictionary_loop (MExn:=MExn) x idx features d0 = Err IndexError.
Proof.
  intros Hs. revert idx d0.
  induction features as [|feature rest IH]; intros idx d0 Hidx Hlen.
  { simpl in Hlen. lia. }
  cbn [tensor_to_dictionary_loop]. simpl in Hlen.
  destruct (decide (idx < m)) as [Hlt|Hge].
  - rewrite (getitem_last_snoc x lead m idx) by done.
    unfold mbind at 1, result_bind. apply IH; lia.
  - unfold getitem_last. rewrite Hs, split_last_snoc.
    by rewrite decide_False.
Qed.

Lemma tensor_to_dictionary_loop_Ok_inv x features d0 d :
  tensor_to_dictionary_loop (MExn:=MExn) x 0 features d0 = Ok d →
  features = []
  ∨ ∃ lead m, shape x = lead ++ [m] ∧ length features ≤ m.
Proof.
  intros Hd. destruct features as [|feature rest]; [by left|]. right.
  destruct (split_last (shape x)) as [[lead m]|] eqn:Hsplit.
  - apply split_last_Some in Hsplit. exists lead, m. split; [done|].
    destruct (decide (length (feature :: rest) ≤ m)) as [|Hgt]; [done|].
    rewrite (tensor_to_dictionary_loop_short x lead m) in Hd; [done|done|lia|lia].
  - cbn [tensor_to_dictionary_loop] in Hd.
    by rewrite getitem_last_rank_0 in Hd.
Qed.

(** What the loop adds to the mapping it starts from: the names it runs
    over, each bound to a slice taken at a position of that name. *)
Lemma tensor_to_dictionary_loop_inv x features idx d0 d :
  tensor_to_dictionary_loop (MExn:=MExn) x idx features d0 = Ok d →
  dom d = dom d0 ∪ list_to_set features
  ∧ ∀ name t, d !! name = Some t →
      d0 !! name = Some t
      ∨ ∃ i xi, features !! i = Some name
           ∧ getitem_last (MExn:=MExn) x (idx + i) = Ok xi
           ∧ t = unsqueeze_last xi.
Proof.
  revert idx d0. induction features as [|feature rest IH]; intros idx d0.
  { intros [= ->]. split; [set_solver|]. by left. }
  cbn [tensor_to_dictionary_loop].
  destruct (getitem_last x idx) as [xi|e] eqn:Hxi; [|done].
  unfold mbind at 1, result_bind. intros [Hdom Hval]%IH. split.
  - rewrite Hdom, dom_insert_L. set_solver.
  - intros name t [Hold|(i & xi' & Hi & Hget & ->)]%Hval.
    + destruct (decide (feature = name)) as [->|Hne].
      * rewrite lookup_insert_eq in Hold. injection Hold as <-.
        right. exists 0, xi. by rewrite Nat.add_0_r.
      * rewrite lookup_insert_ne in Hold by done. by left.
    + right. exists (S i), xi'. split_and!; [done| |done].
      by replace (idx + S i) with (S idx + i) by lia.
Qed.

Lemma getitem_last_wf x idx xi :
  tensor_wf x → getitem_last (MExn:=MExn) x idx = Ok xi → tensor_wf xi.
Proof.
  unfold getitem_last, tensor_wf. intros Hwf.
  destruct (split_last (shape x)) as [[lead m]|] eqn:Hsplit; [|done].
  apply split_last_Some in Hsplit. case_decide; [|done]. intros [= <-].
  simpl. apply select_last_length; [|done].
  rewrite Hwf, Hsplit, numel_app. simpl. lia.
Qed.

Lemma unsqueeze_last_wf t : tensor_wf t → tensor_wf (unsqueeze_last t).
Proof. unfold tensor_wf. simpl. by rewrite numel_snoc_1. Qed.

(** X1: the split step returns a mapping exactly when there is no feature
    name or the input has a last axis of at least as many columns as
    there are feature names; when it raises, it raises IndexError.  In
    both cases the adapter and the model are left as they were. *)
Theorem split_returns_iff x w :
  ((∃ d, (_tensor_to_dictionary x w).1 = Ok d)
   ↔ (_feature_order (self w) = []
      ∨ ∃ lead m, shape x = lead ++ [m]
                ∧ length (_feature_order (self w)) ≤ m))
  ∧ (∀ e, (_tensor_to_dictionary x w).1 = Err e → e = IndexError)
  ∧ (_tensor_to_dictionary x w).2 = w.
Proof.
  rewrite _tensor_to_dictionary_run. simpl. split_and!; [split| |done].
  - intros [d Hd]. by eapply tensor_to_dictionary_loop_Ok_inv.
  - intros [->|(lead & m & Hs & Hlen)]; [by exists ∅|].
    destruct (tensor_to_dictionary_loop_spec x lead m
                (_feature_order (self w)) 0 ∅ Hs) as (d & Hd & _); [lia|].
    by exists d.
  - intros e. apply tensor_to_dictionary_loop_Err.
Qed.

(** X2: the keys of the mapping the split step returns are exactly the
    feature names; every value is a slice of the input, taken at a
    position of its name and given a trailing singleton dimension; and on
    a well-formed input every value is well-formed. *)
Theorem split_mapping_keys x w d :
  (_tensor_to_dictionary x w).1 = Ok d →
  dom d = list_to_set (_feature_order (self w))
  ∧ (∀ name t, d !! name = Some t →
       ∃ i xi, _feature_order (self w) !! i = Some name
             ∧ getitem_last (MExn:=MExn) x i = Ok xi
             ∧ t = unsqueeze_last xi)
  ∧ (tensor_wf x → ∀ name t, d !! name = Some t → tensor_wf t).
Proof.
  rewrite _tensor_to_dictionary_run. simpl.
  intros [Hdom Hval]%tensor_to_dictionary_loop_inv.
  assert (∀ name t, d !! name = Some t →
            ∃ i xi, _feature_order (self w) !! i = Some name
                  ∧ getitem_last (MExn:=MExn) x i = Ok xi
                  ∧ t = unsqueeze_last xi) as Hval'.
  { intros name t [Hempty|H]%Hval; [by rewrite lookup_empty in Hempty|done]. }
  split_and!; [|done|].
  - rewrite Hdom, dom_empty_L. set_solver.
  - intros Hwf name t (i & xi & _ & Hxi & ->)%Hval'.
    apply unsqueeze_last_wf. by eapply getitem_last_wf.
Qed.

(** X3: on an input of rank 2 or more with fewer columns than feature
    names, [forward] raises IndexError from the split step; the model is
    not called and nothing changes. *)
Theorem forward_too_few_columns x w lead m :
  shape x = lead ++ [m] → 2 ≤ dim x →
  m < length (_feature_order (self w)) →
  forward x w = (Err IndexError, w).
Proof.
  intros Hs Hdim Hlen. rewrite forward_run, decide_False by lia.
  by rewrite (tensor_to_dictionary_loop_short x lead m) by (done || lia).
Qed.

(** ** Further properties of the reassembly step *)

Lemma mapM_result_Ok_inv {X Y} (f : X → result (exn MExn) Y) (l : list X) k :
  mapM f l = Ok k → Forall2 (λ a b, f a = Ok b) l k.
Proof.
  revert k. induction l as [|a l IH]; intros k.
  { intros [= <-]. constructor. }
  cbn [mapM]. destruct (f a) as [b|e] eqn:Hb; [|done].
  unfold mbind at 1, result_bind.
  destruct (mapM f l) as [k'|e] eqn:Hk; [|done].
  intros [= <-]. constructor; [done|]. by apply IH.
Qed.

Lemma mapM_result_Err_first {X Y} (f : X → result (exn MExn) Y)
    (pre : list X) a post e :
  Forall (λ b, ∃ v, f b = Ok v) pre → f a = Err e →
  mapM f (pre ++ a :: post) = Err e.
Proof.
  intros Hpre Ha. induction Hpre as [|b pre [v Hv] _ IH]; simpl.
  - by rewrite Ha.
  - by rewrite Hv, IH.
Qed.

Lemma mapM_result_Err_inv {X Y} (f : X → result (exn MExn) Y) (l : list X) e :
  mapM f l = Err e →
  ∃ pre a post, l = pre ++ a :: post ∧ f a = Err e
              ∧ Forall (λ b, ∃ v, f b = Ok v) pre.
Proof.
  induction l as [|a l IH]; [done|].
  cbn [mapM]. destruct (f a) as [b|e'] eqn:Hb.
  - unfold mbind at 1, result_bind.
    destruct (mapM f l) as [k|e''] eqn:Hk; [done|].
    intros [= ->]. destruct (IH eq_refl) as (pre & a' & post & -> & Ha' & Hpre).
    exists (a :: pre), a', post. split_and!; [done|done|].
    constructor; [by exists b|done].
  - intros [= ->]. exists [], a, l. by split_and!.
Qed.

Lemma mapM_result_ext_in {X Y} (f g : X → result (exn MExn) Y) (l : list X) :
  (∀ a, a ∈ l → f a = g a) → mapM f l = mapM g l.
Proof.
  induction l as [|a l IH]; intros H; [done|].
  cbn [mapM]. rewrite (H a) by left. rewrite IH; [done|].
  intros a' Ha'. apply H. by right.
Qed.

Lemma torch_stack_last_Ok_inv (ts : list (tensor A)) t :
  torch_stack_last (MExn:=MExn) ts = Ok t →
  ts ≠ []
  ∧ ∃ s, Forall (λ ti, shape ti = s) ts
       ∧ t = Tensor (s ++ [length ts]) (interleave (numel s) (data <$> ts)).
Proof.
  unfold torch_stack_last. destruct ts as [|t0 rest]; [done|].
  case_decide as HF; [|done]. intros [= <-]. split; [done|].
  exists (shape t0). split; [by constructor|done].
Qed.

Lemma torch_stack_last_Err_inv (ts : list (tensor A)) e :
  torch_stack_last (MExn:=MExn) ts = Err e →
  (ts = [] ∧ e = RuntimeError EmptyTensorList)
  ∨ (e = RuntimeError UnequalSizes
     ∧ ∃ t0 rest ti, ts = t0 :: rest ∧ ti ∈ rest ∧ shape ti ≠ shape t0).
Proof.
  unfold torch_stack_last. destruct ts as [|t0 rest].
  { intros [= <-]. by left. }
  case_decide as HF; [done|]. intros [= <-]. right. split; [done|].
  apply not_Forall_Exists in HF; [|apply _].
  apply Exists_exists in HF as (ti & Hti & Hne).
  by exists t0, rest, ti.
Qed.

(** Where an exception of the reassembly comes from: the first name of
    the output order the mapping lacks, an empty output order, or two
    named tensors of different shapes. *)
Lemma dictionary_to_tensor_value_Err_inv names y e :
  dictionary_to_tensor_value (MExn:=MExn) names y = Err e →
  (∃ pre key post, names = pre ++ key :: post ∧ e = KeyError key
       ∧ y !! key = None ∧ ∀ n, n ∈ pre → is_Some (y !! n))
  ∨ (names = [] ∧ e = RuntimeError EmptyTensorList)
  ∨ (e = RuntimeError UnequalSizes
     ∧ (∀ n, n ∈ names → is_Some (y !! n))
     ∧ ∃ n1 n2 t1 t2, n1 ∈ names ∧ n2 ∈ names
         ∧ y !! n1 = Some t1 ∧ y !! n2 = Some t2 ∧ shape t1 ≠ shape t2).
Proof.
  rewrite dictionary_to_tensor_value_spec. unfold stack_then_squeeze.
  destruct (mapM (dict_getitem y) names) as [ts|e'] eqn:Hts.
  - apply mapM_result_Ok_inv in Hts. simpl.
    destruct (torch_stack_last ts) as [t|e'] eqn:Hstack; [done|].
    simpl. intros [= ->]. right.
    apply torch_stack_last_Err_inv in Hstack
      as [[-> ->]|(-> & t0 & rest & ti & -> & Hti & Hne)].
    { left. split; [|done]. by inversion Hts. }
    right. split; [done|]. split.
    + intros n [i Hi]%list_elem_of_lookup_1.
      destruct (Forall2_lookup_l _ _ _ _ _ Hts Hi) as (t & _ & Ht).
      apply dict_getitem_Ok in Ht. by exists t.
    + apply list_elem_of_lookup_1 in Hti as [i Hi].
      destruct (Forall2_lookup_r _ _ _ (S i) ti Hts Hi) as (n2 & Hn2 & Ht2).
      destruct (Forall2_lookup_r _ _ _ 0 t0 Hts eq_refl) as (n1 & Hn1 & Ht1).
      apply dict_getitem_Ok in Ht1, Ht2.
      exists n2, n1, ti, t0. split_and!; try done.
      * by eapply list_elem_of_lookup_2.
      * by eapply list_elem_of_lookup_2.
  - simpl. intros [= ->]. left.
    apply mapM_result_Err_inv in Hts as (pre & key & post & -> & Hkey & Hpre).
    unfold dict_getitem in Hkey.
    destruct (y !! key) eqn:Hy; [done|]. injection Hkey as <-.
    exists pre, key, post. split_and!; try done.
    intros n Hn. destruct (proj1 (Forall_forall _ _) Hpre n Hn) as [v Hv].
    apply dict_getitem_Ok in Hv. by exists v.
Qed.

Lemma dictionary_to_tensor_value_Ok_inv names y t :
  dictionary_to_tensor_value (MExn:=MExn) names y = Ok t →
  names ≠ [] ∧ ∃ s, named_with_shape names s y.
Proof.
  rewrite dictionary_to_tensor_value_spec. unfold stack_then_squeeze.
  destruct (mapM (dict_getitem y) names) as [ts|e'] eqn:Hts; [|done].
  apply mapM_result_Ok_inv in Hts. simpl.
  destruct (torch_stack_last ts) as [st|e'] eqn:Hstack; [|done].
  intros _. apply torch_stack_last_Ok_inv in Hstack as (Hne & s & Hshapes & _).
  split.
  - intros ->. by inversion Hts.
  - exists s. intros n [i Hi]%list_elem_of_lookup_1.
    destruct (Forall2_lookup_l _ _ _ _ _ Hts Hi) as (ti & Hti & Hget).
    apply dict_getitem_Ok in Hget. exists ti. split; [done|].
    apply (proj1 (Forall_forall _ _) Hshapes). by eapply list_elem_of_lookup_2.
Qed.

(** X4: when the mapping lacks a name of the output order, the
    reassembly raises KeyError for the first such name. *)
Theorem reassembly_missing_name y w pre name post :
  _output_order (self w) = pre ++ name :: post →
  (∀ n, n ∈ pre → is_Some (y !! n)) →
  y !! name = None →
  _dictionary_to_tensor y w = (Err (KeyError name), w).
Proof.
  intros Hoo Hpre Hname.
  rewrite _dictionary_to_tensor_run, dictionary_to_tensor_value_spec, Hoo.
  unfold stack_then_squeeze.
  rewrite (mapM_result_Err_first _ pre name post (KeyError name)); [done| |].
  - apply Forall_forall. intros n [v Hv]%Hpre. exists v.
    by apply dict_getitem_Ok.
  - unfold dict_getitem. by rewrite Hname.
Qed.

(** X5: when the mapping binds every name of the output order and two of
    the named tensors differ in shape, the reassembly raises the
    RuntimeError of [torch.stack] for tensors of unequal size. *)
Theorem reassembly_unequal_shapes y w n1 n2 t1 t2 :
  (∀ n, n ∈ _output_order (self w) → is_Some (y !! n)) →
  n1 ∈ _output_order (self w) → n2 ∈ _output_order (self w) →
  y !! n1 = Some t1 → y !! n2 = Some t2 → shape t1 ≠ shape t2 →
  _dictionary_to_tensor y w = (Err (RuntimeError UnequalSizes), w).
Proof.
  intros Hall Hn1 Hn2 Ht1 Ht2 Hne. rewrite _dictionary_to_tensor_run. f_equal.
  destruct (dictionary_to_tensor_value _ y) as [t|e] eqn:Hres.
  - apply dictionary_to_tensor_value_Ok_inv in Hres as (_ & s & Hs).
    destruct (Hs n1 Hn1) as (t1' & Ht1' & Hs1).
    destruct (Hs n2 Hn2) as (t2' & Ht2' & Hs2). congruence.
  - apply dictionary_to_tensor_value_Err_inv in Hres
      as [(pre & key & post & Hoo & _ & Hkey & _)|[[Hoo _]|[-> _]]].
    + destruct (Hall key) as [v Hv]; [rewrite Hoo; set_solver|]. congruence.
    + rewrite Hoo in Hn1. by apply elem_of_nil in Hn1.
    + done.
Qed.

(** X6: the reassembly returns a tensor exactly when the output order is
    not empty and the mapping binds all its names to tensors of one
    shape; it never changes the adapter or the model. *)
Theorem reassembly_returns_iff y w :
  ((∃ t, (_dictionary_to_tensor y w).1 = Ok t)
   ↔ _output_order (self w) ≠ []
     ∧ ∃ s, named_with_shape (_output_order (self w)) s y)
  ∧ (_dictionary_to_tensor y w).2 = w.
Proof.
  rewrite _dictionary_to_tensor_run. simpl. split; [|done]. split.
  - intros [t Ht]. by eapply dictionary_to_tensor_value_Ok_inv.
  - intros (Hne & s & Hs).
    destruct (dictionary_to_tensor_value_Ok _ y s Hne Hs) as (ts & _ & _ & Hts).
    eexists. exact Hts.
Qed.

(** X7: the reassembly reads the mapping at the names of the output order
    only: two mappings that agree on those names give the same result,
    whatever else they bind. *)
Theorem reassembly_ignores_other_names y y' w :
  (∀ n, n ∈ _output_order (self w) → y' !! n = y !! n) →
  _dictionary_to_tensor y' w = _dictionary_to_tensor y w.
Proof.
  intros Hagree. rewrite !_dictionary_to_tensor_run. f_equal.
  unfold dictionary_to_tensor_value.
  rewrite (mapM_result_ext_in _
             (λ outcome, unsqueeze_last <$> dict_getitem y outcome)); [done|].
  intros n Hn. unfold dict_getitem. by rewrite (Hagree n Hn).
Qed.

(** ** Further properties of [forward] *)

Lemma shape_snoc (s : list nat) :
  1 ≤ length s → ∃ lead m, s = lead ++ [m].
Proof.
  destruct s as [|k s] using rev_ind; simpl; [lia|]. intros _. by exists s, k.
Qed.

Lemma numel_filter_singleton (s : list nat) :
  numel (filter (λ k, k ≠ 1) s) = numel s.
Proof.
  induction s as [|k s IH]; [done|].
  destruct (decide (k = 1)) as [->|Hk].
  - rewrite filter_cons_False by (simpl; lia). simpl. lia.
  - rewrite filter_cons_True by done. simpl. by rewrite IH.
Qed.

Lemma squeeze_wf t : tensor_wf t → tensor_wf (squeeze t).
Proof. unfold tensor_wf. simpl. by rewrite numel_filter_singleton. Qed.

Lemma interleave_length n (cols : list (list A)) :
  Forall (λ c, length c = n) cols →
  length (interleave n cols) = n * length cols.
Proof.
  revert cols. induction n as [|n IH]; intros cols HF; [done|].
  cbn [interleave]. rewrite length_app, (concat_heads_length n) by done.
  rewrite IH, length_fmap; [lia|].
  apply Forall_fmap. eapply Forall_impl; [exact HF|].
  simpl. intros c Hc. rewrite length_drop. lia.
Qed.

(** X8: where an exception of [forward] comes from.  It is the ValueError
    of the rank check, on an input of rank below 2; or the IndexError of
    the split step, on an input with fewer columns than feature names,
    and in both cases the model was not called; or the model's own
    exception; or, after the model returned, an exception of the
    reassembly: KeyError for the first missing output name, RuntimeError
    for an empty output order or for outputs of different shapes. *)
Theorem forward_error_origin x w e :
  (forward x w).1 = Err e →
  (dim x ≤ 1 ∧ e = ValueError (invalid_input_message (shape x))
   ∧ (forward x w).2 = w)
  ∨ (2 ≤ dim x ∧ e = IndexError ∧ (forward x w).2 = w
     ∧ ∃ lead m, shape x = lead ++ [m]
               ∧ m < length (_feature_order (self w)))
  ∨ (2 ≤ dim x
     ∧ ∃ d, (_tensor_to_dictionary x w).1 = Ok d
          ∧ ((∃ e', (evaluate (_model (self w)) (model_state w) d).1 = Err e'
                  ∧ e = Raised e')
             ∨ ∃ y, (evaluate (_model (self w)) (model_state w) d).1 = Ok y
                  ∧ reassembly_raises (_output_order (self w)) y e)).
Proof.
  rewrite _tensor_to_dictionary_run, forward_run. simpl.
  case_decide as Hdim; simpl.
  { intros [= <-]. by left. }
  destruct (tensor_to_dictionary_loop _ _ _ _) as [d|e0] eqn:Hsplit; simpl.
  - intros He. right. right. split; [lia|]. exists d. split; [done|].
    destruct (evaluate _ _ _) as [[y|e'] st]; simpl in *.
    + right. exists y. split; [done|].
      destruct (dictionary_to_tensor_value _ y) as [t|e''] eqn:Hstack; [done|].
      injection He as ->.
      by apply dictionary_to_tensor_value_Err_inv.
    + left. exists e'. split; [done|]. by injection He as <-.
  - intros [= ->]. right. left.
    pose proof (tensor_to_dictionary_loop_Err _ _ _ _ _ Hsplit) as ->.
    split_and!; [lia|done|done|].
    destruct (shape_snoc (shape x)) as (lead & m & Hs); [unfold dim in Hdim; lia|].
    exists lead, m. split; [done|].
    destruct (decide (m < length (_feature_order (self w)))) as [|Hge]; [done|].
    destruct (tensor_to_dictionary_loop_spec x lead m
                (_feature_order (self w)) 0 ∅ Hs) as (d & Hd & _); [lia|].
    congruence.
Qed.

(** X9: [forward] returns a tensor exactly when the input has rank 2 or
    more, the split step returns, the model returns on the mapping of the
    split step, the output order is not empty and the model's mapping
    binds all its names to tensors of one shape. *)
Theorem forward_returns_iff x w :
  (∃ t, (forward x w).1 = Ok t)
  ↔ 2 ≤ dim x
    ∧ ∃ d y, (_tensor_to_dictionary x w).1 = Ok d
           ∧ (evaluate (_model (self w)) (model_state w) d).1 = Ok y
           ∧ _output_order (self w) ≠ []
           ∧ ∃ s, named_with_shape (_output_order (self w)) s y.
Proof.
  rewrite _tensor_to_dictionary_run, forward_run. simpl. split.
  - intros [t Ht]. case_decide; [done|]. split; [lia|].
    destruct (tensor_to_dictionary_loop _ _ _ _) as [d|e]; [|done].
    destruct (evaluate _ _ _) as [[y|e] st] eqn:Heval; [|done]. simpl in Ht.
    destruct (dictionary_to_tensor_value _ y) as [t'|e] eqn:Hstack; [|done].
    apply dictionary_to_tensor_value_Ok_inv in Hstack as [Hne Hs].
    exists d, y. by rewrite Heval.
  - intros (Hdim & d & y & Hd & Hy & Hne & s & Hs).
    rewrite decide_False, Hd by lia.
    destruct (evaluate _ _ _) as [r st]. simpl in Hy. subst r.
    destruct (dictionary_to_tensor_value_Ok _ y s Hne Hs) as (ts & _ & _ & ->).
    by eexists.
Qed.

(** X10: [forward] does not depend on the columns beyond the feature
    names: on two inputs of one shape, of rank 2 or more, that hold the
    same elements in the first [len(feature_order)] columns it returns
    the same result and leaves the same state. *)
Theorem forward_ignores_surplus_columns x x' w lead m :
  shape x = lead ++ [m] → 2 ≤ dim x →
  length (_feature_order (self w)) ≤ m →
  agree_on_columns m (length (_feature_order (self w))) x x' →
  forward x' w = forward x w.
Proof.
  intros Hs Hdim Hlen Hagree. rewrite !forward_run.
  assert (dim x' = dim x) as Hdim' by (unfold dim; by rewrite (proj1 Hagree)).
  rewrite !decide_False by lia.
  rewrite (tensor_to_dictionary_loop_ext x x'); [done|].
  intros i Hi. eapply getitem_last_agree; [done|done|lia|lia].
Qed.

(** X11: with distinct feature names and a model that returns its
    argument, [forward] selects columns: for an output order made of
    feature names, column [i] of the result is the input column whose
    feature name is the [i]-th output name.  The input may have any rank
    from 2 on. *)
Theorem forward_selects_columns x w lead m :
  shape x = lead ++ [m] → lead ≠ [] → tensor_wf x →
  length (_feature_order (self w)) ≤ m →
  NoDup (_feature_order (self w)) →
  identity_evaluate (_model (self w)) →
  _output_order (self w) ≠ [] →
  (∀ name, name ∈ _output_order (self w) → name ∈ _feature_order (self w)) →
  ∃ t, (forward x w).1 = Ok t
     ∧ shape t
       = filter (λ k, k ≠ 1) (lead ++ [length (_output_order (self w))])
     ∧ ∀ i c name j,
         _output_order (self w) !! i = Some name →
         _feature_order (self w) !! c = Some name →
         j < numel lead →
         data t !! (j * length (_output_order (self w)) + i)
         = data x !! (j * m + c).
Proof.
  intros Hs Hlead Hwf Hlen Hnd Hid Hne Hsub.
  destruct (tensor_to_dictionary_loop_spec x lead m
              (_feature_order (self w)) 0 ∅ Hs) as (d & Hd & _ & Hin); [lia|].
  assert (length (data x) = numel lead * m) as Hdata.
  { unfold tensor_wf in Hwf. rewrite Hwf, Hs, numel_app. simpl. lia. }
  assert (∀ c name, _feature_order (self w) !! c = Some name →
            d !! name = Some (unsqueeze_last
              (Tensor lead (select_last (numel lead) m c (data x))))) as Hcol.
  { intros c name Hc. apply (Hin c name Hc). by apply NoDup_not_later. }
  assert (named_with_shape (_output_order (self w)) (lead ++ [1]) d) as Hnamed.
  { intros name [c Hc]%Hsub%list_elem_of_lookup_1.
    eexists. split; [by apply Hcol|done]. }
  destruct (dictionary_to_tensor_value_Ok _ d _ Hne Hnamed)
    as (ts & HF & _ & Hts).
  rewrite forward_run, decide_False, Hd.
  2:{ unfold dim. rewrite Hs, length_app. destruct lead; simpl; [done|lia]. }
  specialize (Hid (model_state w) d).
  destruct (evaluate _ _ _) as [r st]. simpl in Hid. subst r.
  rewrite Hts. simpl. eexists. split; [done|]. split.
  { simpl. apply squeeze_shape_snoc. }
  intros i c name j Hi Hc Hj. cbn [squeeze data].
  destruct (Forall2_lookup_l _ _ _ i name HF Hi) as (ti & Hti & Hdti).
  rewrite (Hcol c name Hc) in Hdti. injection Hdti as <-.
  rewrite (Forall2_length _ _ _ HF), <-(length_fmap data ts).
  erewrite interleave_lookup.
  - cbn [unsqueeze_last data]. apply select_last_lookup; [done| |done].
    apply lookup_lt_Some in Hc. lia.
  - apply Forall_fmap, Forall_forall. intros t' [i' Hi']%list_elem_of_lookup_1.
    destruct (Forall2_lookup_r _ _ _ i' t' HF Hi') as (name' & Hname' & Ht').
    apply list_elem_of_lookup_2, Hsub, list_elem_of_lookup_1 in Hname'
      as [c' Hc'].
    rewrite (Hcol c' name' Hc') in Ht'. injection Ht' as <-.
    cbn [unsqueeze_last data]. rewrite numel_snoc_1.
    apply select_last_length; [done|]. apply lookup_lt_Some in Hc'. lia.
  - by rewrite list_lookup_fmap, Hti.
  - by rewrite numel_snoc_1.
Qed.

(** X12: [forward] keeps tensors well-formed: when the tensors the model
    binds to the output names hold as many elements as their shapes say,
    so does the tensor [forward] returns. *)
Theorem forward_preserves_wf x w t :
  (forward x w).1 = Ok t →
  (∀ d y n ti, (_tensor_to_dictionary x w).1 = Ok d →
               (evaluate (_model (self w)) (model_state w) d).1 = Ok y →
               n ∈ _output_order (self w) → y !! n = Some ti →
               tensor_wf ti) →
  tensor_wf t.
Proof.
  rewrite _tensor_to_dictionary_run, forward_run. simpl.
  case_decide; simpl; [done|].
  destruct (tensor_to_dictionary_loop _ _ _ _) as [d|e]; [|done].
  intros Ht Hmodel. specialize (Hmodel d).
  destruct (evaluate _ _ _) as [[y|e] st]; [|done]. simpl in Ht.
  specialize (Hmodel y). rewrite dictionary_to_tensor_value_spec in Ht.
  unfold stack_then_squeeze in Ht.
  destruct (mapM (dict_getitem y) _) as [ts|e] eqn:Hts; [|done].
  apply mapM_result_Ok_inv in Hts. simpl in Ht.
  destruct (torch_stack_last ts) as [st'|e] eqn:Hstack; [|done].
  apply torch_stack_last_Ok_inv in Hstack as (_ & s & Hshapes & ->).
  simpl in Ht. injection Ht as <-. do 2 apply squeeze_wf.
  unfold tensor_wf. simpl. rewrite numel_app. simpl.
  rewrite interleave_length, length_fmap; [lia|].
  apply Forall_fmap, Forall_forall. intros ti Hti. simpl.
  rewrite <-(proj1 (Forall_forall _ _) Hshapes ti Hti).
  apply list_elem_of_lookup_1 in Hti as [i Hi].
  destruct (Forall2_lookup_r _ _ _ i ti Hts Hi) as (n & Hn & Hget).
  apply dict_getitem_Ok in Hget.
  apply (Hmodel n ti); [done|done| |done]. by eapply list_elem_of_lookup_2.
Qed.

(** X13: the shape of a tensor [forward] returns: the model returned,
    on the mapping of the split step, a mapping that binds the output
    names to tensors of one shape [s], whatever that shape is, and the
    result has the shape [s ++ [k]] without its dimensions of size 1, for
    [k] output names, so a rank of at most one more than that of [s] and
    as many entries as [k] tensors of shape [s]. *)
Theorem forward_result_shape x w t :
  (forward x w).1 = Ok t →
  ∃ d y s, (_tensor_to_dictionary x w).1 = Ok d
    ∧ (evaluate (_model (self w)) (model_state w) d).1 = Ok y
    ∧ named_with_shape (_output_order (self w)) s y
    ∧ shape t = filter (λ k, k ≠ 1) (s ++ [length (_output_order (self w))])
    ∧ dim t ≤ length s + 1
    ∧ numel (shape t) = numel s * length (_output_order (self w)).
Proof.
  rewrite _tensor_to_dictionary_run, forward_run. simpl.
  case_decide; simpl; [done|].
  destruct (tensor_to_dictionary_loop _ _ _ _) as [d|e]; [|done].
  destruct (evaluate _ _ _) as [[y|e] st] eqn:Heval; [|done]. simpl.
  rewrite dictionary_to_tensor_value_spec. unfold stack_then_squeeze.
  destruct (mapM (dict_getitem y) _) as [ts|e] eqn:Hts; [|done].
  apply mapM_result_Ok_inv in Hts. simpl.
  destruct (torch_stack_last ts) as [st'|e] eqn:Hstack; [|done].
  apply torch_stack_last_Ok_inv in Hstack as (_ & s & Hshapes & ->).
  simpl. intros [= <-]. exists d, y, s.
  assert (shape (squeeze (squeeze
            (Tensor (s ++ [length ts])
                    (interleave (numel s) (data <$> ts)))))
          = filter (λ k, k ≠ 1) (s ++ [length (_output_order (self w))]))
    as Hshape.
  { simpl. rewrite list_filter_filter, (Forall2_length _ _ _ Hts).
    apply list_filter_iff. tauto. }
  split_and!; [done|by rewrite Heval| |done| |].
  - intros n [i Hi]%list_elem_of_lookup_1.
    destruct (Forall2_lookup_l _ _ _ _ _ Hts Hi) as (ti & Hti & Hget).
    apply dict_getitem_Ok in Hget. exists ti. split; [done|].
    apply (proj1 (Forall_forall _ _) Hshapes). by eapply list_elem_of_lookup_2.
  - unfold dim. rewrite Hshape.
    etrans; [apply length_filter|]. rewrite length_app. simpl. lia.
  - rewrite Hshape, numel_filter_singleton, numel_app. simpl. lia.
Qed.

End adapter_facts.

(** * The properties on concrete adapters *)

(** The scenario of a rank-1 input of shape [[5]]. *)
Example forward_rank_1_raises :
  (forward x5 (world_of identity_model ["a"] ["a"])).1
  = Err (ValueError "Expected input dim to be at least 2 ([n_samples, n_features]), 
                received: (5,)").
Proof. vm_compute. reflexivity. Qed.

(** A call changes the state of the wrapped model object as the model
    does, and nothing of the adapter. *)
Example forward_counts_calls :
  (forward x232 (World {| _modules := ∅; _model := counting_model;
                          _feature_order := ["a"; "b"];
                          _output_order := ["a"; "b"] |} 0)).2
  = World {| _modules := ∅; _model := counting_model;
             _feature_order := ["a"; "b"];
             _output_order := ["a"; "b"] |} 1.
Proof. vm_compute. reflexivity. Qed.

(** The scenario of one output name: the result has the leading
    dimensions of the input. *)
Example forward_single_output :
  (forward x232 (world_of identity_model ["a"; "b"] ["b"])).1
  = Ok (Tensor [2; 3] [1; 3; 5; 7; 9; 11]).
Proof. vm_compute. reflexivity. Qed.

Lemma forward_shape_witness :
  ∃ t, (forward x232 (world_of identity_model ["a"; "b"] ["b"])).1 = Ok t
     ∧ shape t = filter (λ k, k ≠ 1) [2; 3; 1]
     ∧ (length ["b"] = 1 →
        shape t = filter (λ k, k ≠ 1) [2; 3]
        ∧ (2 ≤ 2 → 2 ≤ 3 → shape t = [2; 3])
        ∧ (2 = 1 → 2 ≤ 3 → shape t = [3])).
Proof.
  apply (forward_shape x232 (world_of identity_model ["a"; "b"] ["b"]) 2 3);
    [reflexivity | lia | lia | discriminate |].
  intros d Hd. exists d. split; [reflexivity|].
  intros name Hname. apply list_elem_of_singleton in Hname as ->.
  vm_compute in Hd. injection Hd as <-.
  eexists. split; [vm_compute; reflexivity | reflexivity].
Defined.

(** C1 fails as stated for an empty output order: the precondition on the
    model holds, as there is no output name, and [forward] raises instead
    of returning a tensor of shape [[2, 3, 0]]. *)
Lemma forward_shape_empty_output_order :
  shape x232 = [2; 3; length ["a"; "b"]]
  ∧ (∀ d, (_tensor_to_dictionary x232 (world_of identity_model ["a"; "b"] [])).1
          = Ok d →
          model_returns_shape (world_of identity_model ["a"; "b"] []) d [2; 3; 1])
  ∧ (forward x232 (world_of identity_model ["a"; "b"] [])).1
    = Err (RuntimeError EmptyTensorList)
  ∧ ¬ ∃ t, (forward x232 (world_of identity_model ["a"; "b"] [])).1 = Ok t
         ∧ shape t = filter (λ k, k ≠ 1) [2; 3; 0].
Proof.
  split_and!.
  - reflexivity.
  - intros d Hd. exists d. split; [reflexivity|].
    intros name Hname. by apply elem_of_nil in Hname.
  - vm_compute. reflexivity.
  - intros (t & Ht & _). vm_compute in Ht. discriminate.
Qed.

(** The scenario of the identity model on names [a], [b] and an input of
    shape [[2, 3, 2]]: the output is the input. *)
Lemma forward_round_trip_witness :
  (forward x232 (world_of identity_model ["a"; "b"] ["a"; "b"])).1 = Ok x232
  ∧ shape x232 = [2; 3; 2].
Proof.
  destruct (forward_round_trip x232
              (world_of identity_model ["a"; "b"] ["a"; "b"]) 2 3 2)
    as (H & _ & _).
  - reflexivity.
  - lia.
  - lia.
  - lia.
  - reflexivity.
  - reflexivity.
  - reflexivity.
  - apply (bool_decide_unpack _). vm_compute. exact I.
  - intros st d. reflexivity.
  - split; [exact H | reflexivity].
Defined.

(** C3 fails as stated when a feature name repeats: with the feature and
    output order [a, a] and the identity model, both output columns hold
    the second column of the input. *)
Lemma forward_round_trip_repeated_name :
  shape x232 = [2; 3; 2] ∧ tensor_wf x232
  ∧ _output_order (self (world_of identity_model ["a"; "a"] ["a"; "a"]))
    = _feature_order (self (world_of identity_model ["a"; "a"] ["a"; "a"]))
  ∧ length (_feature_order (self (world_of identity_model ["a"; "a"] ["a"; "a"])))
    = 2
  ∧ identity_evaluate identity_model
  ∧ (forward x232 (world_of identity_model ["a"; "a"] ["a"; "a"])).1
    = Ok (Tensor [2; 3; 2] [1; 1; 3; 3; 5; 5; 7; 7; 9; 9; 11; 11])
  ∧ (forward x232 (world_of identity_model ["a"; "a"] ["a"; "a"])).1
    ≠ Ok (squeeze x232).
Proof.
  split_and!; try reflexivity.
  - intros st d. reflexivity.
  - vm_compute. discriminate.
Qed.

Lemma split_binds_last_occurrence_witness :
  (∀ i name, ["a"; "b"] !! i = Some name →
             name ∉ drop (S i) ["a"; "b"] →
             split_binds_position (world_of identity_model ["a"; "b"] ["a"])
               x23 [2] 3 i)
  ∧ (NoDup ["a"; "b"] →
     ∀ i, i < 2 →
          split_binds_position (world_of identity_model ["a"; "b"] ["a"])
            x23 [2] 3 i).
Proof.
  apply (split_binds_last_occurrence x23
           (world_of identity_model ["a"; "b"] ["a"]) [2] 3).
  - reflexivity.
  - vm_compute. lia.
  - reflexivity.
  - vm_compute. lia.
Defined.

(** C4 fails as stated when a feature name repeats: with the feature
    order [a, a] the name at position 0 is bound to the slice at index 1,
    the elements 2 and 5 of the input, and not to the slice at index 0. *)
Lemma split_repeated_name_not_first_slice :
  shape x23 = [2] ++ [3] ∧ 2 ≤ dim x23 ∧ tensor_wf x23
  ∧ length (_feature_order (self (world_of identity_model ["a"; "a"] ["a"]))) ≤ 3
  ∧ (_tensor_to_dictionary x23 (world_of identity_model ["a"; "a"] ["a"])).1
    = Ok {["a" := Tensor [2; 1] [2; 5]]}
  ∧ ¬ split_binds_position (world_of identity_model ["a"; "a"] ["a"])
        x23 [2] 3 0.
Proof.
  split_and!; try (vm_compute; (reflexivity || lia)).
  intros (d & name & t & Hd & Hname & Ht & _ & _ & Hslice).
  vm_compute in Hname. injection Hname as <-.
  vm_compute in Hd. injection Hd as <-.
  vm_compute in Ht. injection Ht as <-.
  specialize (Hslice 0). vm_compute in Hslice.
  specialize (Hslice (le_S _ _ (le_n 1))). discriminate.
Qed.

Lemma reassembly_is_stack_then_squeeze_witness :
  (_dictionary_to_tensor y_ab (world_of identity_model ["a"] ["a"; "b"])).1
  = stack_then_squeeze ["a"; "b"] y_ab
  ∧ (["a"; "b"] ≠ [] →
     ∃ ts t, Forall2 (λ name ti, y_ab !! name = Some ti) ["a"; "b"] ts
       ∧ (_dictionary_to_tensor y_ab
            (world_of identity_model ["a"] ["a"; "b"])).1 = Ok t
       ∧ shape t = filter (λ k, k ≠ 1) ([2; 1] ++ [2])
       ∧ (Forall tensor_wf ts →
          ∀ i j ti, ts !! i = Some ti → j < numel [2; 1] →
            data t !! (j * 2 + i) = data ti !! j))
  ∧ squeeze <$> (_dictionary_to_tensor y_ab
                   (world_of identity_model ["a"] ["a"; "b"])).1
    = (_dictionary_to_tensor y_ab (world_of identity_model ["a"] ["a"; "b"])).1.
Proof.
  apply (reassembly_is_stack_then_squeeze y_ab
           (world_of identity_model ["a"] ["a"; "b"]) [2; 1]).
  intros name Hname.
  apply elem_of_cons in Hname as [->|Hname].
  { eexists. split; [vm_compute; reflexivity | reflexivity]. }
  apply list_elem_of_singleton in Hname as ->.
  eexists. split; [vm_compute; reflexivity | reflexivity].
Defined.

(** On names [a], [b] the reassembly of [y_ab] holds the elements of the
    two tensors position by position. *)
Example reassembly_of_y_ab :
  (_dictionary_to_tensor y_ab (world_of identity_model ["a"] ["a"; "b"])).1
  = Ok (Tensor [2; 2] [1; 3; 2; 4]).
Proof. vm_compute. reflexivity. Qed.

Lemma split_ignores_surplus_columns_witness :
  ∃ d, _tensor_to_dictionary x23 (world_of identity_model ["a"; "b"] ["a"])
       = (Ok d, world_of identity_model ["a"; "b"] ["a"])
     ∧ ∀ x', agree_on_columns 3 2 x23 x' →
             _tensor_to_dictionary x' (world_of identity_model ["a"; "b"] ["a"])
             = (Ok d, world_of identity_model ["a"; "b"] ["a"]).
Proof.
  apply (split_ignores_surplus_columns x23
           (world_of identity_model ["a"; "b"] ["a"]) [2] 3).
  - reflexivity.
  - vm_compute. lia.
  - vm_compute. lia.
Defined.

(** A batch of one: the batch axis is squeezed away with the others. *)
Lemma forward_result_has_no_singleton_witness :
  (forward x132 (world_of identity_model ["a"; "b"] ["a"; "b"])).1
  = Ok (Tensor [3; 2] (seq 0 6))
  ∧ 1 ∉ shape (Tensor [3; 2] (seq 0 6)).
Proof.
  assert ((forward x132 (world_of identity_model ["a"; "b"] ["a"; "b"])).1
          = Ok (Tensor [3; 2] (seq 0 6))) as H
    by (vm_compute; reflexivity).
  split; [exact H|].
  exact (forward_result_has_no_singleton x132
           (world_of identity_model ["a"; "b"] ["a"; "b"]) _ H).
Defined.

Lemma forward_default_output_order_raises_witness :
  (∀ t, (forward x23 (world_of identity_model [] [])).1 ≠ Ok t)
  ∧ (dim x23 ≤ 1 →
     (forward x23 (world_of identity_model [] [])).1
     = Err (ValueError (invalid_input_message (shape x23))))
  ∧ (2 ≤ dim x23 →
     (∀ e, (_tensor_to_dictionary x23 (world_of identity_model [] [])).1
           = Err e →
           e = IndexError
           ∧ (forward x23 (world_of identity_model [] [])).1 = Err e)
     ∧ (∀ d, (_tensor_to_dictionary x23 (world_of identity_model [] [])).1
             = Ok d →
          (∀ e, (evaluate identity_model
                   (model_state (world_of identity_model [] [])) d).1 = Err e →
                (forward x23 (world_of identity_model [] [])).1
                = Err (Raised e))
          ∧ (∀ y, (evaluate identity_model
                     (model_state (world_of identity_model [] [])) d).1 = Ok y →
                  (forward x23 (world_of identity_model [] [])).1
                  = Err (RuntimeError EmptyTensorList))))
  ∧ (@None (list string) = None → default_feature_order initial_defaults = [] →
     (_tensor_to_dictionary x23 (world_of identity_model [] [])).1 = Ok ∅).
Proof.
  apply (forward_default_output_order_raises some_module_attributes
           initial_defaults identity_model None x23
           (world_of identity_model [] [])).
  - vm_compute. reflexivity.
  - reflexivity.
Defined.

(** C10 fails as stated when the wrapped model raises: the adapter is
    built with the default orderings and the input has rank 2, yet the
    exception that leaves [forward] is the model's and the reassembly
    step is never reached. *)
Lemma forward_default_orderings_model_raises :
  __init__ some_module_attributes initial_defaults failing_model None None
  = Ok (self (world_of failing_model [] []))
  ∧ default_output_order initial_defaults = []
  ∧ dim x23 = 2
  ∧ (forward x23 (world_of failing_model [] [])).1
    = Err (Raised "missing input")
  ∧ (forward x23 (world_of failing_model [] [])).1
    ≠ Err (RuntimeError EmptyTensorList).
Proof.
  split_and!; try (vm_compute; reflexivity).
  vm_compute. discriminate.
Qed.

(** With a feature name and the default output order, an input with an
    empty last axis makes the split step raise before anything else. *)
Example forward_default_output_order_split_raises :
  __init__ some_module_attributes initial_defaults identity_model
    (Some ["a"]) None
  = Ok (self (world_of identity_model ["a"] []))
  ∧ (forward (Tensor [2; 0] []) (world_of identity_model ["a"] [])).1
    = Err IndexError.
Proof. split; vm_compute; reflexivity. Qed.

(** * The further properties on concrete adapters *)

Lemma split_mapping_keys_witness :
  dom d23 = list_to_set ["a"; "b"]
  ∧ (∀ name t, d23 !! name = Some t →
       ∃ i xi, ["a"; "b"] !! i = Some name
             ∧ getitem_last (MExn:=string) x23 i = Ok xi
             ∧ t = unsqueeze_last xi)
  ∧ (tensor_wf x23 → ∀ name t, d23 !! name = Some t → tensor_wf t).
Proof.
  apply (split_mapping_keys x23 (world_of identity_model ["a"; "b"] ["a"]) d23).
  vm_compute. reflexivity.
Defined.

Lemma forward_too_few_columns_witness :
  forward x23 (world_of identity_model ["a"; "b"; "c"; "d"] ["a"])
  = (Err IndexError, world_of identity_model ["a"; "b"; "c"; "d"] ["a"]).
Proof.
  apply (forward_too_few_columns x23
           (world_of identity_model ["a"; "b"; "c"; "d"] ["a"]) [2] 3).
  - reflexivity.
  - vm_compute. lia.
  - vm_compute. lia.
Defined.

Lemma reassembly_missing_name_witness :
  _dictionary_to_tensor y_ab (world_of identity_model ["a"] ["a"; "c"; "b"])
  = (Err (KeyError "c"), world_of identity_model ["a"] ["a"; "c"; "b"]).
Proof.
  apply (reassembly_missing_name y_ab
           (world_of identity_model ["a"] ["a"; "c"; "b"]) ["a"] "c" ["b"]).
  - reflexivity.
  - intros n ->%list_elem_of_singleton. vm_compute. by eexists.
  - vm_compute. reflexivity.
Defined.

Lemma reassembly_unequal_shapes_witness :
  _dictionary_to_tensor y_uneven (world_of identity_model ["a"] ["a"; "b"])
  = (Err (RuntimeError UnequalSizes), world_of identity_model ["a"] ["a"; "b"]).
Proof.
  apply (reassembly_unequal_shapes y_uneven
           (world_of identity_model ["a"] ["a"; "b"]) "a" "b"
           (Tensor [2; 1] [1; 2]) (Tensor [3; 1] [3; 4; 5])).
  - intros n [->| ->%list_elem_of_singleton]%elem_of_cons;
      vm_compute; by eexists.
  - simpl. left.
  - simpl. right. left.
  - vm_compute. reflexivity.
  - vm_compute. reflexivity.
  - simpl. discriminate.
Defined.

Lemma reassembly_ignores_other_names_witness :
  _dictionary_to_tensor y_abz (world_of identity_model ["a"] ["a"; "b"])
  = _dictionary_to_tensor y_ab (world_of identity_model ["a"] ["a"; "b"]).
Proof.
  apply (reassembly_ignores_other_names y_ab y_abz
           (world_of identity_model ["a"] ["a"; "b"])).
  intros n [->| ->%list_elem_of_singleton]%elem_of_cons;
    vm_compute; reflexivity.
Defined.

(** The model's own exception, on a rank-2 input. *)
Lemma forward_error_origin_witness :
  (dim x23 ≤ 1
   ∧ Raised "missing input" = ValueError (invalid_input_message (shape x23))
   ∧ (forward x23 (world_of failing_model ["a"] ["a"])).2
     = world_of failing_model ["a"] ["a"])
  ∨ (2 ≤ dim x23 ∧ @Raised string "missing input" = IndexError
     ∧ (forward x23 (world_of failing_model ["a"] ["a"])).2
       = world_of failing_model ["a"] ["a"]
     ∧ ∃ lead m, shape x23 = lead ++ [m] ∧ m < length ["a"])
  ∨ (2 ≤ dim x23
     ∧ ∃ d, (_tensor_to_dictionary x23 (world_of failing_model ["a"] ["a"])).1
            = Ok d
          ∧ ((∃ e', (evaluate failing_model tt d).1 = Err e'
                  ∧ Raised "missing input" = Raised e')
             ∨ ∃ y, (evaluate failing_model tt d).1 = Ok y
                  ∧ reassembly_raises ["a"] y (Raised "missing input"))).
Proof.
  apply (forward_error_origin x23 (world_of failing_model ["a"] ["a"])
           (Raised "missing input")).
  vm_compute. reflexivity.
Defined.

Lemma forward_ignores_surplus_columns_witness :
  forward x23' (world_of identity_model ["a"; "b"] ["b"; "a"])
  = forward x23 (world_of identity_model ["a"; "b"] ["b"; "a"]).
Proof.
  apply (forward_ignores_surplus_columns x23 x23'
           (world_of identity_model ["a"; "b"] ["b"; "a"]) [2] 3).
  - reflexivity.
  - vm_compute. lia.
  - vm_compute. lia.
  - split; [reflexivity|]. intros p Hp.
    do 6 (destruct p as [|p]; [vm_compute in Hp |- *; (reflexivity || lia)|]).
    reflexivity.
Defined.

(** The two columns of [x232], swapped. *)
Lemma forward_selects_columns_witness :
  ∃ t, (forward x232 (world_of identity_model ["a"; "b"] ["b"; "a"])).1 = Ok t
     ∧ shape t = filter (λ k, k ≠ 1) ([2; 3] ++ [length ["b"; "a"]])
     ∧ ∀ i c name j,
         ["b"; "a"] !! i = Some name → ["a"; "b"] !! c = Some name →
         j < numel [2; 3] →
         data t !! (j * length ["b"; "a"] + i) = data x232 !! (j * 2 + c).
Proof.
  apply (forward_selects_columns x232
           (world_of identity_model ["a"; "b"] ["b"; "a"]) [2; 3] 2).
  - reflexivity.
  - discriminate.
  - reflexivity.
  - vm_compute. lia.
  - apply (bool_decide_unpack _). vm_compute. exact I.
  - intros st d. reflexivity.
  - discriminate.
  - intros name [->| ->%list_elem_of_singleton]%elem_of_cons; simpl.
    + right. left.
    + left.
Defined.

Example forward_swaps_columns :
  (forward x232 (world_of identity_model ["a"; "b"] ["b"; "a"])).1
  = Ok (Tensor [2; 3; 2] [1; 0; 3; 2; 5; 4; 7; 6; 9; 8; 11; 10]).
Proof. vm_compute. reflexivity. Qed.

Lemma y_of_x232_wf d y n ti :
  (_tensor_to_dictionary x232 (world_of identity_model ["a"; "b"] ["a"; "b"])).1
  = Ok d →
  (evaluate identity_model tt d).1 = Ok y →
  n ∈ ["a"; "b"] → y !! n = Some ti → tensor_wf ti.
Proof.
  intros Hd Hy Hn Hti. vm_compute in Hd. injection Hd as <-.
  simpl in Hy. injection Hy as <-.
  apply elem_of_cons in Hn as [->| ->%list_elem_of_singleton];
    vm_compute in Hti; injection Hti as <-; reflexivity.
Defined.

Lemma forward_preserves_wf_witness :
  (forward x232 (world_of identity_model ["a"; "b"] ["a"; "b"])).1 = Ok x232
  ∧ tensor_wf x232.
Proof.
  assert ((forward x232 (world_of identity_model ["a"; "b"] ["a"; "b"])).1
          = Ok x232) as H by (vm_compute; reflexivity).
  split; [exact H|].
  apply (forward_preserves_wf x232
           (world_of identity_model ["a"; "b"] ["a"; "b"]) x232 H).
  apply y_of_x232_wf.
Defined.

(** Outputs of shape [[2, 3, 1]] under one name: the result has shape
    [[2, 3]]. *)
Lemma forward_result_shape_witness :
  ∃ d y s,
    (_tensor_to_dictionary x232 (world_of identity_model ["a"; "b"] ["b"])).1
    = Ok d
    ∧ (evaluate identity_model tt d).1 = Ok y
    ∧ named_with_shape ["b"] s y
    ∧ shape (Tensor [2; 3] [1; 3; 5; 7; 9; 11])
      = filter (λ k, k ≠ 1) (s ++ [length ["b"]])
    ∧ dim (Tensor [2; 3] [1; 3; 5; 7; 9; 11]) ≤ length s + 1
    ∧ numel (shape (Tensor [2; 3] [1; 3; 5; 7; 9; 11]))
      = numel s * length ["b"].
Proof.
  apply (forward_result_shape x232
           (world_of identity_model ["a"; "b"] ["b"])
           (Tensor [2; 3] [1; 3; 5; 7; 9; 11])).
  vm_compute. reflexivity.
Defined.

(** * The constructor on concrete models *)

Lemma __init___succeeds_iff_witness :
  ((∃ s, __init__ some_module_attributes initial_defaults identity_model
           (Some ["a"; "b"]) None = Ok s)
   ↔ ∃ module, model identity_model = Some module
             ∧ ∀ typename, module ≠ OtherObject typename)
  ∧ (∀ s, __init__ some_module_attributes initial_defaults identity_model
            (Some ["a"; "b"]) None = Ok s →
       _model s = identity_model
       ∧ _feature_order s = ["a"; "b"]
       ∧ _output_order s = []
       ∧ feature_order s = ["a"; "b"]
       ∧ output_order s = []
       ∧ ∃ module, model identity_model = Some module
                 ∧ _modules s = registered module)
  ∧ (model identity_model = None →
     __init__ some_module_attributes initial_defaults identity_model
       (Some ["a"; "b"]) None
     = Err (AttributeError "model"))
  ∧ (∀ typename, model identity_model = Some (OtherObject typename) →
     __init__ some_module_attributes initial_defaults identity_model
       (Some ["a"; "b"]) None
     = Err (TypeError (typename +:+ " is not a Module subclass"))).
Proof.
  apply (__init___succeeds_iff some_module_attributes initial_defaults
           identity_model (Some ["a"; "b"]) None).
  apply (bool_decide_unpack _). vm_compute. exact I.
Defined.

(** C7 fails as stated for a model argument whose attribute [model] is
    not a torch module, and for one without that attribute: the
    constructor raises. *)
Lemma __init___raises_on_other_model :
  __init__ some_module_attributes initial_defaults model_with_int
    (Some ["a"]) (Some ["b"])
  = Err (TypeError "int is not a Module subclass")
  ∧ __init__ some_module_attributes initial_defaults model_without_model
      (Some ["a"]) (Some ["b"])
    = Err (AttributeError "model")
  ∧ ¬ ∃ s, __init__ some_module_attributes initial_defaults model_with_int
             (Some ["a"]) (Some ["b"]) = Ok s.
Proof.
  split_and!; [vm_compute; reflexivity | vm_compute; reflexivity |].
  intros [s Hs]. vm_compute in Hs. discriminate.
Qed.

(** The construction the examples above start from, and the constructor
    after the shared default list of feature names was appended to. *)
Example __init___of_adapter :
  __init__ some_module_attributes initial_defaults identity_model
    (Some ["a"; "b"]) (Some ["b"])
  = Ok (adapter identity_model ["a"; "b"] ["b"])
  ∧ __init__ some_module_attributes
      {| default_feature_order := ["x"]; default_output_order := [] |}
      identity_model None None
    = Ok (adapter identity_model ["x"] []).
Proof. split; vm_compute; reflexivity. Qed.

(** A name that is already an attribute cannot be registered. *)
Example register_module_existing_attribute :
  register_module some_module_attributes "forward" (IsModule tt)
    (adapter identity_model [] [])
  = Err (KeyError "attribute 'forward' already exists")
  ∧ register_module some_module_attributes "base_model" IsNone
      (adapter identity_model [] [])
    = Ok {| _modules := {["base_model" := None]};
            _model := identity_model;
            _feature_order := [];
            _output_order := [] |}.
Proof. split; vm_compute; reflexivity. Qed.
